(** * VitalNet doctor portal: vitals simulation, triage order and metadata

    A shallow embedding of the determinate logic of [src/App.jsx]:
    [severityScore], [makeInitialPatients], [simulateVitalsUpdate], the
    comparator handed to [Array.prototype.sort], [updateMeta], the effect that
    persists the notes/ward mapping and the initializer that hydrates it.

    JavaScript numbers are modelled as rationals [Q] with exact arithmetic
    (the binary64 rounding of [+], [-] and [*] is idealised; [Math.max],
    [Math.min], [Math.round] and the comparisons are exact on doubles too).
    [Math.random] and the clock are explicit oracles, and the number of
    random draws consumed so far is threaded as state.

    Patients are records while the simulation runs.  At the storage
    boundary, where [JSON.parse] may hand back anything, they are JavaScript
    objects, property lists over a type of values, and [patientObject] is the
    object a record stands for. *)

From Stdlib Require Import ZArith QArith Qround List String Ascii Lia Bool.
From Stdlib Require Import Sorting.Sorted Sorting.Permutation.
From Stdlib Require Import DecimalString Lqa.
Import ListNotations.

Local Open Scope Q_scope.

(** ** JavaScript numbers and the [Math] functions the source calls *)

Module JsMath.

(** [Math.max(a, b)] and [Math.min(a, b)] on (non-NaN) numbers. *)
Definition max (a b : Q) : Q := if Qle_bool a b then b else a.
Definition min (a b : Q) : Q := if Qle_bool a b then a else b.

(** [Math.round(x)]: the nearest integer, halves rounded towards
    positive infinity, that is [floor (x + 1/2)]. *)
Definition round (x : Q) : Z := Qfloor (x + (1 # 2)).

(** A number that holds an integer value. *)
Definition is_integer (x : Q) : Prop := inject_Z (Qfloor x) == x.

End JsMath.

(** ** Severity classification (source lines 34-39) *)

(** [severityScore(spo2)]: higher is worse. *)
Definition severityScore (spo2 : Q) : Z :=
  if Qle_bool 95 spo2 then 0%Z        (* stable *)
  else if Qle_bool 90 spo2 then 1%Z   (* warning *)
  else if Qle_bool 85 spo2 then 2%Z   (* serious *)
  else 3%Z.                           (* critical *)

(** ** Data model *)

(** One vitals reading: the object literal [{ time, spo2, hr, bp }]. *)
Record Reading := {
  time : string;
  spo2 : Q;
  hr : Q;
  bp : Q
}.

(** One patient object.  [history] and [vitals] may be missing: the source
    guards both with [p.vitals?.spo2 ?? 97] and [p.history || []]. *)
Record Patient := {
  id : string;
  name : string;
  age : Z;
  ward : string;
  notes : string;
  history : option (list Reading);
  vitals : option Reading;
  avatarColor : string
}.

(** The template literal [`${n}`] on a non-negative integer. *)
Definition decimal (n : nat) : string := NilEmpty.string_of_uint (Nat.to_uint n).

(** [arr.slice(-n)]: the last [n] elements, all of them when there are fewer. *)
Definition slice_last {A : Type} (n : nat) (l : list A) : list A :=
  skipn (List.length l - n) l.

(** ** The simulation: a state monad over the count of random draws *)

(** A computation that may call [Math.random()]: it receives the number of
    draws made so far and returns its result with the new count. *)
Definition Sim (A : Type) : Type := nat -> A * nat.

Definition ret {A : Type} (a : A) : Sim A := fun n => (a, n).

Definition bind {A B : Type} (m : Sim A) (k : A -> Sim B) : Sim B :=
  fun n => let (a, n') := m n in k a n'.

Declare Scope sim_scope.
Delimit Scope sim_scope with sim.
Notation "x <- m ;; k" := (bind m (fun x => k))
  (at level 61, m at next level, right associativity) : sim_scope.

(** [arr.map(f)] where [f] draws random numbers: left to right. *)
Fixpoint mapSim {A B : Type} (f : A -> Sim B) (l : list A) : Sim (list B) :=
  match l with
  | [] => ret []
  | a :: l' => (b <- f a ;; bs <- mapSim f l' ;; ret (b :: bs))%sim
  end.

Section Simulation.

(** [random k] is the value of the [k]-th call of [Math.random()] in the
    session, [clock k] the value of [new Date().getTime()] read once [k]
    draws have been made, and [toLocaleTimeString secs t] the label of the
    instant [t], with or without the seconds. *)
Variable random : nat -> Q.
Variable clock : nat -> Z.
Variable toLocaleTimeString : bool -> Z -> string.

Definition Math_random : Sim Q := fun n => (random n, S n).
Definition Date_now : Sim Z := fun n => (clock n, n).

Local Open Scope sim_scope.

(** *** Seed generation (source lines 42-64) *)

(** One element of the seed history, lines 47-53.  The sum
    [base + (r1 * 4 - 2)] is exact here; the source rounds it to the nearest
    double, so a strict bound on it may become an equality there. *)
Definition seedReading (base : Q) (now : Z) (idx : nat) : Sim Reading :=
  let t := (now - (7 - Z.of_nat idx) * 1000 * 60 * 5)%Z in
  r1 <- Math_random ;;
  let spo2 := JsMath.max 80 (JsMath.min 100 (base + (r1 * 4 - 2))) in
  r2 <- Math_random ;;
  let hr := inject_Z (JsMath.round (65 + r2 * 20)) in
  r3 <- Math_random ;;
  let bp := 110 + inject_Z (JsMath.round (r3 * 30)) in
  ret {| time := toLocaleTimeString false t; spo2 := spo2; hr := hr; bp := bp |}.

Definition palette : list string :=
  ["bg-indigo-500"; "bg-rose-500"; "bg-emerald-500"; "bg-sky-500"]%string.

(** The [i]-th seed patient, lines 43-64. *)
Definition seedPatient (i : nat) : Sim Patient :=
  let base := 95 - inject_Z (Z.of_nat (i mod 4)) in
  now <- Date_now ;;
  history <- mapSim (seedReading base now) (seq 0 8) ;;
  ret {| id := ("PT-" ++ decimal (1000 + i))%string;
         name := ("Patient " ++ decimal (i + 1))%string;
         age := (28 + ((Z.of_nat i * 7) mod 25))%Z;
         ward := "General"%string;
         notes := EmptyString;
         history := Some history;
         vitals := nth_error history (List.length history - 1);
         avatarColor := nth (i mod 4) palette EmptyString |}.

Definition makeInitialPatients : Sim (list Patient) :=
  mapSim seedPatient (seq 0 10).

(** *** One tick (source lines 96-114) *)

(** [p.history || []]. *)
Definition historyOf (p : Patient) : list Reading :=
  match history p with Some h => h | None => [] end.

(** [p.vitals?.spo2 ?? 97], and [p.vitals?.hr || 70], [p.vitals?.bp || 120]
    where [||] also replaces the falsy number [0]. *)
Definition prevSpo2 (p : Patient) : Q :=
  match vitals p with Some v => spo2 v | None => 97 end.

Definition orElse (x : option Q) (d : Q) : Q :=
  match x with
  | Some q => if Qeq_bool q 0 then d else q
  | None => d
  end.

(** [Math.round((Math.random() - 0.65) * 4)], from the draw [r]. *)
Definition delta (r : Q) : Z := JsMath.round ((r - 0.65) * 4).

(** The reading built at lines 99-110 from three draws and a time label. *)
Definition nextReading (p : Patient) (r1 r2 r3 : Q) (label : string) : Reading :=
  let nextSpo2 := prevSpo2 p + inject_Z (delta r1) in
  let nextSpo2 := JsMath.max 60 (JsMath.min 100 nextSpo2) in
  let nextHr :=
    JsMath.max 45 (JsMath.min 140
      (inject_Z (JsMath.round (orElse (option_map hr (vitals p)) 70 + (r2 * 6 - 3))))) in
  let nextBp :=
    JsMath.max 80 (JsMath.min 200
      (inject_Z (JsMath.round (orElse (option_map bp (vitals p)) 120 + (r3 * 6 - 3))))) in
  {| time := label; spo2 := nextSpo2; hr := nextHr; bp := nextBp |}.

(** The body of the [prev.map] callback, lines 97-113. *)
Definition tickPatient (p : Patient) : Sim Patient :=
  r1 <- Math_random ;;
  r2 <- Math_random ;;
  r3 <- Math_random ;;
  t <- Date_now ;;
  let newPoint := nextReading p r1 r2 r3 (toLocaleTimeString true t) in
  let history :=
    slice_last 16 (historyOf p ++ [newPoint])%list in
  ret {| id := id p; name := name p; age := age p; ward := ward p;
         notes := notes p; history := Some history; vitals := Some newPoint;
         avatarColor := avatarColor p |}.

Definition simulateVitalsUpdate (prev : list Patient) : Sim (list Patient) :=
  mapSim tickPatient prev.

(** The reading a tick builds for [p] when [m] draws were made before. *)
Definition tickReading (p : Patient) (m : nat) : Reading :=
  nextReading p (random m) (random (S m)) (random (S (S m)))
    (toLocaleTimeString true (clock (S (S (S m))))).

End Simulation.

(** ** Triage order (source lines 124-136) *)

(** [arr.sort(cmp)].  The comparator may throw, hence the [option].  The
    language fixes the result of [sort] for a consistent comparator: the
    stable arrangement in which [cmp a b <= 0] for [a] before [b].  Insertion
    from the right computes that arrangement; a new element goes in front of
    the first element it does not exceed.  For the triage comparator the
    arrangement is the only one there is ([triage_arrangement_unique]), so
    the algorithm the platform runs does not matter. *)
Fixpoint insertBy {A : Type} (cmp : A -> A -> option Z) (x : A) (l : list A)
  : option (list A) :=
  match l with
  | [] => Some [x]
  | y :: l' =>
      match cmp x y with
      | None => None
      | Some c =>
          if (c <=? 0)%Z then Some (x :: l)
          else option_map (cons y) (insertBy cmp x l')
      end
  end.

Fixpoint sortBy {A : Type} (cmp : A -> A -> option Z) (l : list A)
  : option (list A) :=
  match l with
  | [] => Some []
  | x :: l' =>
      match sortBy cmp l' with
      | None => None
      | Some sorted => insertBy cmp x sorted
      end
  end.

Section Triage.

(** [a.localeCompare(b)] of the platform: negative, zero or positive. *)
Variable localeCompare : string -> string -> Z.

(** The comparator of lines 127 and 134,
    [severityScore(b.vitals.spo2) - severityScore(a.vitals.spo2) || a.id.localeCompare(b.id)].
    Reading [.spo2] of a missing [vitals] throws: [None]. *)
Definition compareTriage (a b : Patient) : option Z :=
  match vitals b, vitals a with
  | Some vb, Some va =>
      let d := (severityScore (spo2 vb) - severityScore (spo2 va))%Z in
      Some (if (d =? 0)%Z then localeCompare (id a) (id b) else d)
  | _, _ => None
  end.

Variable random : nat -> Q.
Variable clock : nat -> Z.
Variable toLocaleTimeString : bool -> Z -> string.

(** The state update of one tick, lines 124-129 and 132-136. *)
Definition tickAndSort (prev : list Patient) : Sim (option (list Patient)) :=
  (updated <- simulateVitalsUpdate random clock toLocaleTimeString prev ;;
   ret (sortBy compareTriage updated))%sim.

End Triage.

(** The current severity of a patient, as the comparator and the filters
    read it: [severityScore(p.vitals.spo2)]. *)
Definition severityOf (p : Patient) : option Z :=
  option_map (fun v => severityScore (spo2 v)) (vitals p).

(** ** Metadata edits (source lines 167-169) *)

(** The patches the interface sends: [{ notes: text }] (lines 393, 505) and
    [{ ward: text }] (line 400). *)
Inductive MetaPatch :=
| PatchNotes (text : string)
| PatchWard (text : string).

(** [{ ...p, ...patch }] for those patches. *)
Definition applyPatch (p : Patient) (patch : MetaPatch) : Patient :=
  match patch with
  | PatchNotes text =>
      {| id := id p; name := name p; age := age p; ward := ward p;
         notes := text; history := history p; vitals := vitals p;
         avatarColor := avatarColor p |}
  | PatchWard text =>
      {| id := id p; name := name p; age := age p; ward := text;
         notes := notes p; history := history p; vitals := vitals p;
         avatarColor := avatarColor p |}
  end.

Definition updateMeta (id0 : string) (patch : MetaPatch) (prev : list Patient)
  : list Patient :=
  map (fun p => if (id p =? id0)%string then applyPatch p patch else p) prev.

(** ** JavaScript values, for what crosses the storage boundary *)

#[warnings="-register-all"]
Inductive value : Type :=
| VUndefined
| VNull
| VBool (b : bool)
| VNum (q : Q)
| VStr (s : string)
| VArr (items : list value)
| VObj (props : list (string * value)).

(** An object as its own properties, in insertion order, keys distinct. *)
Definition object : Type := list (string * value).

(** [o[k]] on an own property, [undefined] when there is none. *)
Fixpoint getProp (k : string) (o : object) : value :=
  match o with
  | [] => VUndefined
  | (k', v) :: o' => if (k' =? k)%string then v else getProp k o'
  end.

(** Defining the property [k]: in place when present, else at the end. *)
Fixpoint setProp (k : string) (v : value) (o : object) : object :=
  match o with
  | [] => [(k, v)]
  | (k', v') :: o' =>
      if (k' =? k)%string then (k, v) :: o' else (k', v') :: setProp k v o'
  end.

Fixpoint indexed {A : Type} (f : A -> value) (i : nat) (l : list A) : object :=
  match l with
  | [] => []
  | a :: l' => (decimal i, f a) :: indexed f (S i) l'
  end.

(** The own enumerable properties that [{ ...x }] copies: those of an object,
    the elements of an array, the characters of a string, and nothing for
    [undefined], [null], booleans and numbers. *)
Definition ownEntries (x : value) : object :=
  match x with
  | VObj props => props
  | VArr items => indexed (fun v => v) 0 items
  | VStr s => indexed (fun c => VStr (String c EmptyString)) 0 (list_ascii_of_string s)
  | _ => []
  end.

(** [{ ...o, ...x }]. *)
Definition spread (o : object) (x : value) : object :=
  fold_left (fun acc kv => setProp (fst kv) (snd kv) acc) (ownEntries x) o.

(** [meta[pid]] for a seed identifier [pid], which is [PT-] and digits: no
    array index, not [length], no inherited property name, so only a plain
    object can hold it.  On [null] and [undefined] the access throws. *)
Definition lookupId (meta : value) (pid : string) : option value :=
  match meta with
  | VUndefined | VNull => None
  | VObj props => Some (getProp pid props)
  | _ => Some VUndefined
  end.

(** The patient objects as the seed literal of lines 54-63 builds them. *)
Definition readingValue (r : Reading) : value :=
  VObj [("time", VStr (time r)); ("spo2", VNum (spo2 r));
        ("hr", VNum (hr r)); ("bp", VNum (bp r))]%string.

Definition optValue {A : Type} (f : A -> value) (o : option A) : value :=
  match o with Some a => f a | None => VUndefined end.

Definition patientObject (p : Patient) : object :=
  [("id", VStr (id p)); ("name", VStr (name p)); ("age", VNum (inject_Z (age p)));
   ("ward", VStr (ward p)); ("notes", VStr (notes p));
   ("history", optValue (fun h => VArr (map readingValue h)) (history p));
   ("vitals", optValue readingValue (vitals p));
   ("avatarColor", VStr (avatarColor p))]%string.

(** ** Storage, hydration and persistence (source lines 66-79, 143-146) *)

Definition STORAGE_KEY : string := "dp_v2_patients_meta_v1".

(** [localStorage]: the string kept under each key, if any. *)
Definition Storage : Type := string -> option string.

Definition getItem (st : Storage) (k : string) : option string := st k.

Definition setItem (k v : string) (st : Storage) : Storage :=
  fun k' => if (k' =? k)%string then Some v else st k'.

(** [seeded.map(f)] where [f] may throw. *)
Fixpoint mapOpt {A B : Type} (f : A -> option B) (l : list A) : option (list B) :=
  match l with
  | [] => Some []
  | a :: l' =>
      match f a with
      | None => None
      | Some b => option_map (cons b) (mapOpt f l')
      end
  end.

(** The metadata mapping of line 144,
    [Object.fromEntries(patients.map((p) => [p.id, { notes: p.notes, ward: p.ward }]))]. *)
Definition metaOf (patients : list Patient) : value :=
  VObj (fold_left
          (fun acc p =>
             setProp (id p)
               (VObj [("notes", VStr (notes p)); ("ward", VStr (ward p))]%string) acc)
          patients []).

Section Persistence.

(** [JSON.parse] ([None] when it throws) and [JSON.stringify] of the
    platform. *)
Variable JSON_parse : string -> option value.
Variable JSON_stringify : value -> string.

(** [localStorage.getItem(STORAGE_KEY) || "{}"]: the empty string is falsy. *)
Definition storedText (st : Storage) : string :=
  match getItem st STORAGE_KEY with
  | Some s => if (s =? EmptyString)%string then "{}"%string else s
  | None => "{}"%string
  end.

(** [{ ...p, ...meta[p.id] }], line 75. *)
Definition hydrateOne (meta : value) (p : Patient) : option object :=
  match lookupId meta (id p) with
  | None => None
  | Some m => Some (spread (patientObject p) m)
  end.

(** The [useState] initializer, lines 70-79, applied to the fresh seed:
    any exception in the [try] block yields the seed itself. *)
Definition hydrate (st : Storage) (seeded : list Patient) : list object :=
  match JSON_parse (storedText st) with
  | None => map patientObject seeded
  | Some meta =>
      match mapOpt (hydrateOne meta) seeded with
      | Some merged => merged
      | None => map patientObject seeded
      end
  end.

(** The persistence effect, lines 143-146. *)
Definition persistMeta (patients : list Patient) (st : Storage) : Storage :=
  setItem STORAGE_KEY (JSON_stringify (metaOf patients)) st.

End Persistence.

(** ** A small JSON reader and writer

    The theorems on hydration and persistence hold for any [JSON.parse] and
    [JSON.stringify].  This module gives one concrete pair for the fragment
    the metadata record lives in (objects, arrays, strings with the two
    escapes of the quote and the backslash, [null], booleans and integers), so
    that the examples can be run on actual stored text. *)

Module MiniJson.

Local Open Scope string_scope.
Local Open Scope char_scope.

Definition dquote : ascii := ascii_of_nat 34.
Definition backslash : ascii := ascii_of_nat 92.

Fixpoint skipWs (s : string) : string :=
  match s with
  | String c r => if (c =? " ")%char then skipWs r else s
  | EmptyString => s
  end.

(** The body of a string literal, after its opening quote. *)
Fixpoint parseChars (s : string) : option (string * string) :=
  match s with
  | EmptyString => None
  | String c r =>
      if (c =? dquote)%char then Some (EmptyString, r)
      else if (c =? backslash)%char then
        match r with
        | String e r' =>
            if ((e =? dquote) || (e =? backslash))%char then
              match parseChars r' with
              | Some (t, rest) => Some (String e t, rest)
              | None => None
              end
            else None
        | EmptyString => None
        end
      else
        match parseChars r with
        | Some (t, rest) => Some (String c t, rest)
        | None => None
        end
  end.

Definition digitOf (c : ascii) : option Z :=
  let n := nat_of_ascii c in
  if ((48 <=? n) && (n <=? 57))%nat then Some (Z.of_nat (n - 48)) else None.

Fixpoint parseDigits (acc : Z) (s : string) : Z * string :=
  match s with
  | String c r =>
      match digitOf c with
      | Some d => parseDigits (acc * 10 + d)%Z r
      | None => (acc, s)
      end
  | EmptyString => (acc, s)
  end.

Fixpoint stripPrefix (p s : string) : option string :=
  match p, s with
  | EmptyString, _ => Some s
  | String a p', String b s' => if (a =? b)%char then stripPrefix p' s' else None
  | String _ _, EmptyString => None
  end.

Definition startsDigit (s : string) : bool :=
  match s with
  | String c _ => match digitOf c with Some _ => true | None => false end
  | EmptyString => false
  end.

(** Recursive descent, with fuel for the nesting and the member lists. *)
Fixpoint parseValue (fuel : nat) (s : string) : option (value * string) :=
  match fuel with
  | O => None
  | S f =>
      match skipWs s with
      | EmptyString => None
      | String c r =>
          if (c =? "{")%char then
            match skipWs r with
            | String "}" rest => Some (VObj [], rest)
            | _ => parseMembers f [] r
            end
          else if (c =? "[")%char then
            match skipWs r with
            | String "]" rest => Some (VArr [], rest)
            | _ => parseElements f [] r
            end
          else if (c =? dquote)%char then
            match parseChars r with
            | Some (t, rest) => Some (VStr t, rest)
            | None => None
            end
          else if (c =? "-")%char then
            if startsDigit r then
              let (n, rest) := parseDigits 0 r in Some (VNum (inject_Z (- n)), rest)
            else None
          else if startsDigit (String c r) then
            let (n, rest) := parseDigits 0 (String c r) in Some (VNum (inject_Z n), rest)
          else
            match stripPrefix "null" (String c r) with
            | Some rest => Some (VNull, rest)
            | None =>
                match stripPrefix "true" (String c r) with
                | Some rest => Some (VBool true, rest)
                | None =>
                    match stripPrefix "false" (String c r) with
                    | Some rest => Some (VBool false, rest)
                    | None => None
                    end
                end
            end
      end
  end

with parseMembers (fuel : nat) (acc : object) (s : string) : option (value * string) :=
  match fuel with
  | O => None
  | S f =>
      match skipWs s with
      | String c r =>
          if (c =? dquote)%char then
            match parseChars r with
            | Some (k, afterKey) =>
                match skipWs afterKey with
                | String ":" afterColon =>
                    match parseValue f afterColon with
                    | Some (v, afterValue) =>
                        match skipWs afterValue with
                        | String "," more => parseMembers f (setProp k v acc) more
                        | String "}" rest => Some (VObj (setProp k v acc), rest)
                        | _ => None
                        end
                    | None => None
                    end
                | _ => None
                end
            | None => None
            end
          else None
      | EmptyString => None
      end
  end

with parseElements (fuel : nat) (acc : list value) (s : string) : option (value * string) :=
  match fuel with
  | O => None
  | S f =>
      match parseValue f s with
      | Some (v, afterValue) =>
          match skipWs afterValue with
          | String "," more => parseElements f (acc ++ [v])%list more
          | String "]" rest => Some (VArr (acc ++ [v])%list, rest)
          | _ => None
          end
      | None => None
      end
  end.

(** [JSON.parse] on the fragment: the whole text must be one value. *)
Definition parse (s : string) : option value :=
  match parseValue (2 * String.length s + 2) s with
  | Some (v, rest) =>
      match skipWs rest with
      | EmptyString => Some v
      | _ => None
      end
  | None => None
  end.

Fixpoint escape (s : string) : string :=
  match s with
  | EmptyString => EmptyString
  | String c r =>
      if ((c =? dquote) || (c =? backslash))%char
      then String backslash (String c (escape r))
      else String c (escape r)
  end.

Definition quote (s : string) : string :=
  String dquote (escape s ++ String dquote EmptyString).

Definition integer (z : Z) : string :=
  if (z <? 0)%Z then "-" ++ decimal (Z.to_nat (- z)) else decimal (Z.to_nat z).

Definition sep (first : bool) : string := if first then EmptyString else ",".

(** [JSON.stringify] on the fragment; a property whose value is
    [undefined] is left out, as the platform does. *)
Fixpoint stringify (v : value) : string :=
  match v with
  | VUndefined | VNull => "null"
  | VBool true => "true"
  | VBool false => "false"
  | VNum q => integer (Qfloor q)
  | VStr s => quote s
  | VArr items =>
      "[" ++
      (fix elements (first : bool) (l : list value) : string :=
         match l with
         | [] => EmptyString
         | x :: l' => sep first ++ stringify x ++ elements false l'
         end) true items
      ++ "]"
  | VObj props =>
      "{" ++
      (fix members (first : bool) (ps : object) : string :=
         match ps with
         | [] => EmptyString
         | (k, x) :: ps' =>
             match x with
             | VUndefined => members first ps'
             | _ => sep first ++ quote k ++ ":" ++ stringify x ++ members false ps'
             end
         end) true props
      ++ "}"
  end.

End MiniJson.

(** ** The session: successive values of the [patients] state *)

(** Every change of the state goes through [setPatients]: the tick of
    lines 124-136 and [updateMeta] of lines 167-169. *)
Inductive Event :=
| Tick
| Edit (pid : string) (patch : MetaPatch).

Section Session.

Variable localeCompare : string -> string -> Z.
Variable random : nat -> Q.
Variable clock : nat -> Z.
Variable toLocaleTimeString : bool -> Z -> string.

(** The state after the events, [None] if a tick threw. *)
Fixpoint run (events : list Event) (patients : list Patient)
  : Sim (option (list Patient)) :=
  match events with
  | [] => ret (Some patients)
  | Tick :: rest =>
      (r <- tickAndSort localeCompare random clock toLocaleTimeString patients ;;
       match r with
       | Some next => run rest next
       | None => ret None
       end)%sim
  | Edit pid patch :: rest => run rest (updateMeta pid patch patients)
  end.

End Session.

(** The number of ticks among the events. *)
Fixpoint ticksIn (events : list Event) : nat :=
  match events with
  | [] => 0
  | Tick :: rest => S (ticksIn rest)
  | Edit _ _ :: rest => ticksIn rest
  end.

(** The text of the last edit of the notes of [pid], and of its ward. *)
Fixpoint lastNotes (pid : string) (events : list Event) (current : string) : string :=
  match events with
  | [] => current
  | Edit pid' (PatchNotes text) :: rest =>
      lastNotes pid rest (if (pid =? pid')%string then text else current)
  | _ :: rest => lastNotes pid rest current
  end.

Fixpoint lastWard (pid : string) (events : list Event) (current : string) : string :=
  match events with
  | [] => current
  | Edit pid' (PatchWard text) :: rest =>
      lastWard pid rest (if (pid =? pid')%string then text else current)
  | _ :: rest => lastWard pid rest current
  end.

(** ** Filter, search and the attention counter (source lines 149-164, 172) *)

(** [s.startsWith(q)] and [s.includes(q)]. *)
Fixpoint startsWith (s q : string) : bool :=
  match q, s with
  | EmptyString, _ => true
  | String a q', String b s' => (a =? b)%char && startsWith s' q'
  | String _ _, EmptyString => false
  end.

Fixpoint includes (s q : string) : bool :=
  if startsWith s q then true
  else match s with
       | EmptyString => false
       | String _ s' => includes s' q
       end.

(** [arr.filter(f)] where [f] may throw. *)
Fixpoint filterOpt {A : Type} (f : A -> option bool) (l : list A) : option (list A) :=
  match l with
  | [] => Some []
  | a :: l' =>
      match f a with
      | None => None
      | Some keep =>
          match filterOpt f l' with
          | None => None
          | Some kept => Some (if keep then a :: kept else kept)
          end
      end
  end.

Section View.

(** [s.trim()] and [s.toLowerCase()] of the platform. *)
Variable trim : string -> string.
Variable toLowerCase : string -> string.

(** [filter === name && severityScore(p.vitals.spo2) !== level]: the second
    operand is only evaluated, and can only throw, when the first holds. *)
Definition levelMismatch (filter name : string) (level : Z) (p : Patient)
  : option bool :=
  if (filter =? name)%string then
    match vitals p with
    | Some v => Some (negb (severityScore (spo2 v) =? level)%Z)
    | None => None
    end
  else Some false.

(** The disjunction of lines 157-162; [ward] and [notes] are strings, on
    which [x || ""] is [x]. *)
Definition matchesSearch (q : string) (p : Patient) : bool :=
  includes (toLowerCase (name p)) q
  || includes (toLowerCase (id p)) q
  || includes (toLowerCase (ward p)) q
  || includes (toLowerCase (notes p)) q.

(** The callback of [patients.filter], lines 151-163. *)
Definition keeps (filter q : string) (p : Patient) : option bool :=
  match levelMismatch filter "stable" 0 p with
  | None => None
  | Some true => Some false
  | Some false =>
  match levelMismatch filter "warning" 1 p with
  | None => None
  | Some true => Some false
  | Some false =>
  match levelMismatch filter "serious" 2 p with
  | None => None
  | Some true => Some false
  | Some false =>
  match levelMismatch filter "critical" 3 p with
  | None => None
  | Some true => Some false
  | Some false =>
      if (q =? EmptyString)%string then Some true else Some (matchesSearch q p)
  end end end end.

(** [filtered], lines 149-164. *)
Definition filtered (patients : list Patient) (query filter : string)
  : option (list Patient) :=
  let q := toLowerCase (trim query) in
  filterOpt (keeps filter q) patients.

End View.

(** [criticalCount], line 172. *)
Definition needsAttention (p : Patient) : option bool :=
  match vitals p with
  | Some v => Some (2 <=? severityScore (spo2 v))%Z
  | None => None
  end.

Definition criticalCount (patients : list Patient) : option nat :=
  option_map (@List.length Patient) (filterOpt needsAttention patients).

(** ** Theme preference and reset (source lines 84-87, 93, 230-233) *)

Definition themeKey : string := "dp_v2_theme".

(** The initial value of [dark]: [s ? s === "dark" : false]. *)
Definition initialDark (st : Storage) : bool :=
  match getItem st themeKey with
  | Some s => if (s =? EmptyString)%string then false else (s =? "dark")%string
  | None => false
  end.

(** The effect of line 93. *)
Definition persistTheme (dark : bool) (st : Storage) : Storage :=
  setItem themeKey (if dark then "dark" else "light")%string st.

(** [localStorage.clear()]. *)
Definition clear (st : Storage) : Storage := fun _ => None.

(** ** What a patient card shows (source lines 341, 364, 375) *)

(** [Math.round(p.vitals.spo2)], the percentage on the card. *)
Definition shownPercent (r : Reading) : Z := JsMath.round (spo2 r).

(** [name.split(" ")]. *)
Fixpoint splitSpaces (s : string) : list string :=
  match s with
  | EmptyString => [EmptyString]
  | String c s' =>
      if (c =? " ")%char then EmptyString :: splitSpaces s'
      else match splitSpaces s' with
           | w :: ws => String c w :: ws
           | [] => [String c EmptyString]
           end
  end.

(** [n[0]] inside [join("")], where [undefined] joins as nothing. *)
Definition firstChar (w : string) : string :=
  match w with
  | String c _ => String c EmptyString
  | EmptyString => EmptyString
  end.

(** [p.name.split(" ").map((n) => n[0]).slice(0, 2).join("")]. *)
Definition initials (name : string) : string :=
  String.concat EmptyString (firstn 2 (map firstChar (splitSpaces name))).

(** ** Concrete oracles for the examples *)

Module Demo.

(** A source of draws that cycles through 0, 1/8, ..., 7/8. *)
Definition random (k : nat) : Q := Z.of_nat (k mod 8) # 8.

(** A clock that advances 2.5 s per three draws, and a constant label. *)
Definition clock (k : nat) : Z := (Z.of_nat (k / 3) * 2500)%Z.
Definition toLocaleTimeString (secs : bool) (t : Z) : string :=
  if secs then "12:00:00"%string else "12:00"%string.

(** Code-unit order, with which [localeCompare] agrees on [PT-] followed
    by digits. *)
Definition localeCompare (a b : string) : Z :=
  match String.compare a b with Lt => (-1)%Z | Eq => 0%Z | Gt => 1%Z end.

Definition seed : list Patient :=
  fst (makeInitialPatients random clock toLocaleTimeString 0%nat).

(** The collection after one tick of the simulator on the seed, whose
    generation made 240 draws. *)
Definition ticked : list Patient :=
  fst (simulateVitalsUpdate random clock toLocaleTimeString seed 240%nat).

(** A patient object that lacks both [vitals] and [history]. *)
Definition blank : Patient :=
  {| id := "PT-2000"; name := "Patient X"; age := 40; ward := "General";
     notes := EmptyString; history := None; vitals := None;
     avatarColor := "bg-sky-500" |}%string.

(** A browser store that holds nothing. *)
Definition emptyStorage : Storage := fun _ => None.

(** A store that holds [text] under the metadata key. *)
Definition storageWith (text : string) : Storage :=
  setItem STORAGE_KEY text emptyStorage.

(** Stored text of the expected shape: notes and ward for [PT-1001]. *)
Definition metadataText : string :=
  ("{" ++ MiniJson.quote "PT-1001" ++ ":{"
       ++ MiniJson.quote "notes" ++ ":" ++ MiniJson.quote "check at 9" ++ ","
       ++ MiniJson.quote "ward" ++ ":" ++ MiniJson.quote "ICU" ++ "}}")%string.

(** Stored text that is valid JSON of another shape: the entry of
    [PT-1000] carries an [id]. *)
Definition misshapedText : string :=
  ("{" ++ MiniJson.quote "PT-1000" ++ ":{"
       ++ MiniJson.quote "id" ++ ":" ++ MiniJson.quote "X" ++ "}}")%string.

End Demo.

(** ** Concrete platform functions for the view examples *)

Module DemoView.

(** Lower case on the letters A to Z. *)
Definition lowerChar (c : ascii) : ascii :=
  let n := nat_of_ascii c in
  if ((65 <=? n) && (n <=? 90))%nat then ascii_of_nat (n + 32) else c.

Fixpoint toLowerCase (s : string) : string :=
  match s with
  | EmptyString => EmptyString
  | String c s' => String (lowerChar c) (toLowerCase s')
  end.

Fixpoint trimStart (s : string) : string :=
  match s with
  | String c s' => if (c =? " ")%char then trimStart s' else s
  | EmptyString => s
  end.

Definition reverse (s : string) : string :=
  string_of_list_ascii (rev (list_ascii_of_string s)).

(** Trimming of spaces at both ends. *)
Definition trim (s : string) : string :=
  reverse (trimStart (reverse (trimStart s))).

(** The demo collection after one tick and the sort. *)
Definition sorted : list Patient :=
  match fst (tickAndSort Demo.localeCompare Demo.random Demo.clock
               Demo.toLocaleTimeString Demo.seed 240%nat) with
  | Some out => out
  | None => []
  end.

(** A patient at rest, with one reading. *)
Definition restingReading : Reading :=
  {| time := "12:00"; spo2 := 96; hr := 72; bp := 120 |}%string.

Definition resting : Patient :=
  {| id := "PT-3000"; name := "Ada Lovelace"; age := 36; ward := "ICU";
     notes := "stable overnight"; history := Some [restingReading];
     vitals := Some restingReading; avatarColor := "bg-rose-500" |}%string.

(** A short session: a tick, two edits of [PT-1003], a tick. *)
Definition events : list Event :=
  [Tick; Edit "PT-1003" (PatchNotes "on oxygen");
   Edit "PT-1003" (PatchWard "ICU"); Tick]%string.

(** Stored text whose entry for [PT-1002] holds, beside the notes, the
    identifier of another patient and a name. *)
Definition intrudingText : string :=
  ("{" ++ MiniJson.quote "PT-1002" ++ ":{"
       ++ MiniJson.quote "notes" ++ ":" ++ MiniJson.quote "n" ++ ","
       ++ MiniJson.quote "id" ++ ":" ++ MiniJson.quote "PT-1000" ++ ","
       ++ MiniJson.quote "name" ++ ":" ++ MiniJson.quote "Z" ++ "}}")%string.

End DemoView.

(** ** Counting draws *)

(** Among the [N] equally spaced draws [0, 1/N, ..., (N-1)/N], the number
    for which the tick's oxygen delta is strictly negative. *)
Definition negativeDraws (N : positive) : nat :=
  List.length
    (filter (fun k => (delta (Z.of_nat k # N) <? 0)%Z) (seq 0 (Pos.to_nat N))).

(** ** Predicates of the specification *)

(** The sensor ranges every update must respect. *)
Definition withinClamps (r : Reading) : Prop :=
  60 <= spo2 r <= 100 /\ 45 <= hr r <= 140 /\ 80 <= bp r <= 200.

(** The history invariant: at most 16 readings, the current one last. *)
Definition historyInv (p : Patient) : Prop :=
  exists h v front,
    history p = Some h /\ vitals p = Some v /\
    (List.length h <= 16)%nat /\ h = (front ++ [v])%list.

(** [localeCompare] orders [a] and [b] as their code units do. *)
Definition collatesLikeCodeUnits (localeCompare : string -> string -> Z)
  (a b : string) : Prop :=
  match String.compare a b with
  | Lt => (localeCompare a b < 0)%Z
  | Eq => localeCompare a b = 0%Z
  | Gt => (localeCompare a b > 0)%Z
  end.

(** What one tick does to one patient: the new reading is appended, the
    last 16 are kept, and the new reading is the current one. *)
Definition tickedFrom (p p' : Patient) : Prop :=
  exists v dropped h',
    vitals p' = Some v /\ history p' = Some h' /\
    (historyOf p ++ [v])%list = (dropped ++ h')%list /\
    List.length h' = Nat.min 16 (List.length (historyOf p) + 1).

(** A patient the comparator can be applied to: it has a current reading,
    and its identifier is one of [ids]. *)
Definition sortable (ids : list string) (p : Patient) : Prop :=
  vitals p <> None /\ In (id p) ids.

(** The triage order between neighbours: worse first, then by identifier. *)
Definition triageOrdered (a b : Patient) : Prop :=
  exists sa sb,
    severityOf a = Some sa /\ severityOf b = Some sb /\
    (sa >= sb)%Z /\ (sa = sb -> String.leb (id a) (id b) = true).

(** The comparator lets [a] stand before [b]: it returns a number that is
    not positive. *)
Definition precedes (localeCompare : string -> string -> Z) (a b : Patient) : Prop :=
  exists c, compareTriage localeCompare a b = Some c /\ (c <= 0)%Z.

(** [k in m] for an own property of the object [o]. *)
Definition hasKey (k : string) (o : object) : bool :=
  existsb (String.eqb k) (map fst o).

(** The value the stored entry [m] holds for the field [k], if any. *)
Definition storedField (k : string) (m : value) : option value :=
  match m with
  | VObj props => if hasKey k props then Some (getProp k props) else None
  | _ => None
  end.

(** A stored per-patient entry of the expected shape: an object whose
    properties are among [notes] and [ward]. *)
Definition metadataEntry (m : value) : Prop :=
  exists props,
    m = VObj props /\ NoDup (map fst props) /\
    forall k, In k (map fst props) -> k = "notes"%string \/ k = "ward"%string.

(** A stored record of the expected shape: an object that maps identifiers
    to such entries. *)
Definition expectedShape (meta : value) : Prop :=
  exists entries,
    meta = VObj entries /\ Forall (fun kv => metadataEntry (snd kv)) entries.

(** The level a filter name asks for, when it names one. *)
Definition filterLevel (filter : string) : option Z :=
  if (filter =? "stable")%string then Some 0%Z
  else if (filter =? "warning")%string then Some 1%Z
  else if (filter =? "serious")%string then Some 2%Z
  else if (filter =? "critical")%string then Some 3%Z
  else None.

(** The filter as the specification words it: the current severity is the
    requested level, or there is no restriction. *)
Definition levelIs (filter : string) (p : Patient) : bool :=
  match filterLevel filter, severityOf p with
  | Some level, Some s => (s =? level)%Z
  | Some _, None => false
  | None, _ => true
  end.

(** The search as the specification words it: no query, or the query occurs
    in the name, the identifier, the ward or the notes, in lower case. *)
Definition queryHits (toLowerCase : string -> string) (q : string) (p : Patient)
  : bool :=
  (q =? EmptyString)%string || matchesSearch toLowerCase q p.

(** A patient that has a current reading. *)
Definition hasReading (p : Patient) : Prop := vitals p <> None.

(** What a session may change of the patient [p]: nothing of its identity,
    the notes and the ward by the last edit of each, and the length of the
    history by one per tick up to sixteen. *)
Definition evolved (events : list Event) (p q : Patient) : Prop :=
  id q = id p /\ name q = name p /\ age q = age p /\
  avatarColor q = avatarColor p /\
  notes q = lastNotes (id p) events (notes p) /\
  ward q = lastWard (id p) events (ward p) /\
  List.length (historyOf q) =
    Nat.min 16 (List.length (historyOf p) + ticksIn events).

(** The entry the persisted mapping holds for [pid] when identifiers are
    unique: the notes and ward of the patient with that identifier. *)
Definition entryFor (pid : string) (patients : list Patient) : value :=
  match find (fun p => (id p =? pid)%string) patients with
  | Some p => VObj [("notes", VStr (notes p)); ("ward", VStr (ward p))]%string
  | None => VUndefined
  end.

(** The identifiers, names and palette classes of the seed. *)
Definition seedIds : list string :=
  ["PT-1000"; "PT-1001"; "PT-1002"; "PT-1003"; "PT-1004";
   "PT-1005"; "PT-1006"; "PT-1007"; "PT-1008"; "PT-1009"]%string.

Definition seedNames : list string :=
  ["Patient 1"; "Patient 2"; "Patient 3"; "Patient 4"; "Patient 5";
   "Patient 6"; "Patient 7"; "Patient 8"; "Patient 9"; "Patient 10"]%string.

(** What a reading of the seed looks like.  The bounds are closed: they
    hold of the exact sums and, rounding to nearest being monotone, of the
    binary64 sums of the source, where the saturation can reach 97 itself. *)
Definition seedLike (r : Reading) : Prop :=
  90 <= spo2 r /\ spo2 r <= 97 /\
  65 <= hr r <= 85 /\ 110 <= bp r <= 140 /\
  JsMath.is_integer (hr r) /\ JsMath.is_integer (bp r) /\
  (severityScore (spo2 r) <= 1)%Z.

(** Two patient objects that differ at most in [history] and [vitals]. *)
Definition sameProfile (p q : Patient) : Prop :=
  id q = id p /\ name q = name p /\ age q = age p /\
  ward q = ward p /\ notes q = notes p /\ avatarColor q = avatarColor p.

(** A patient whose current reading is within the sensor ranges. *)
Definition readingInClamps (p : Patient) : Prop :=
  exists v, vitals p = Some v /\ withinClamps v.

(** A word: a string without a space. *)
Definition isWord (w : string) : Prop :=
  forall c, In c (list_ascii_of_string w) -> c <> " "%char.

(** The first character of [rest] when it is not a space. *)
Definition secondInitial (rest : string) : string :=
  match rest with
  | String b _ => if (b =? " ")%char then EmptyString else String b EmptyString
  | EmptyString => EmptyString
  end.

(** * Properties *)

(** ** Arithmetic of the [Math] functions *)

Lemma max_lower a b : a <= JsMath.max a b.
Proof.
  unfold JsMath.max. destruct (Qle_bool a b) eqn:E.
  - now apply Qle_bool_iff.
  - apply Qle_refl.
Qed.

Lemma max_upper a b c : a <= c -> b <= c -> JsMath.max a b <= c.
Proof. intros Ha Hb. unfold JsMath.max. now destruct (Qle_bool a b). Qed.

Lemma min_upper a b : JsMath.min a b <= a.
Proof.
  unfold JsMath.min. destruct (Qle_bool a b) eqn:E.
  - apply Qle_refl.
  - apply Qlt_le_weak, Qnot_le_lt. intro H.
    apply Qle_bool_iff in H. congruence.
Qed.

(** The clamping idiom [Math.max(lo, Math.min(hi, x))] of the source. *)
Lemma clamp_range lo hi x :
  lo <= hi -> lo <= JsMath.max lo (JsMath.min hi x) <= hi.
Proof.
  intros Hlh. split.
  - apply max_lower.
  - apply max_upper; [exact Hlh | apply min_upper].
Qed.

(** ** Severity classification *)

(** The classifier splits the number line at 85, 90 and 95. *)
Lemma severityScore_cases (s : Q) :
  (95 <= s /\ severityScore s = 0%Z) \/
  (90 <= s < 95 /\ severityScore s = 1%Z) \/
  (85 <= s < 90 /\ severityScore s = 2%Z) \/
  (s < 85 /\ severityScore s = 3%Z).
Proof.
  unfold severityScore.
  destruct (Qle_bool 95 s) eqn:E95.
  { left. split; [now apply Qle_bool_iff | reflexivity]. }
  assert (H95 : s < 95).
  { apply Qnot_le_lt. intro H. apply Qle_bool_iff in H. congruence. }
  destruct (Qle_bool 90 s) eqn:E90.
  { right; left. repeat split; [now apply Qle_bool_iff | exact H95]. }
  assert (H90 : s < 90).
  { apply Qnot_le_lt. intro H. apply Qle_bool_iff in H. congruence. }
  destruct (Qle_bool 85 s) eqn:E85.
  { right; right; left. repeat split; [now apply Qle_bool_iff | exact H90]. }
  right; right; right. split; [|reflexivity].
  apply Qnot_le_lt. intro H. apply Qle_bool_iff in H. congruence.
Qed.

(** C1. For every oxygen-saturation value [s] the classifier returns one of
    0, 1, 2, 3 according to the table: [s >= 95] gives 0, [90 <= s <= 94]
    gives 1, [85 <= s <= 89] gives 2 and [s < 85] gives 3; at the boundaries
    95 gives 0, 94 and 90 give 1, 89 and 85 give 2, 84 gives 3. *)
Theorem severityScore_table (s : Q) :
  (severityScore s = 0 \/ severityScore s = 1 \/
   severityScore s = 2 \/ severityScore s = 3)%Z /\
  (95 <= s -> severityScore s = 0%Z) /\
  (90 <= s -> s <= 94 -> severityScore s = 1%Z) /\
  (85 <= s -> s <= 89 -> severityScore s = 2%Z) /\
  (s < 85 -> severityScore s = 3%Z) /\
  severityScore 95 = 0%Z /\ severityScore 94 = 1%Z /\ severityScore 90 = 1%Z /\
  severityScore 89 = 2%Z /\ severityScore 85 = 2%Z /\ severityScore 84 = 3%Z.
Proof.
  pose proof (severityScore_cases s) as H.
  repeat split; try reflexivity.
  - destruct H as [[_ E]|[[_ E]|[[_ E]|[_ E]]]]; rewrite E; intuition.
  - intros. destruct H as [[? E]|[[? E]|[[? E]|[? E]]]]; (exact E || lra).
  - intros. destruct H as [[? E]|[[? E]|[[? E]|[? E]]]]; (exact E || lra).
  - intros. destruct H as [[? E]|[[? E]|[[? E]|[? E]]]]; (exact E || lra).
  - intros. destruct H as [[? E]|[[? E]|[[? E]|[? E]]]]; (exact E || lra).
Qed.

(** The table read at 92, a value strictly inside the warning band. *)
Lemma severityScore_table_witness : severityScore 92 = 1%Z.
Proof.
  destruct (severityScore_table 92) as (_ & _ & H & _).
  apply H; unfold Qle; simpl; lia.
Defined.

(** ** The simulation monad *)

Lemma mapSim_Forall2 {A B : Type} (f : A -> Sim B) (l : list A) (n : nat) :
  Forall2 (fun a b => exists m, b = fst (f a m)) l (fst (mapSim f l n)).
Proof.
  revert n. induction l as [|a l IH]; intro n; simpl.
  - constructor.
  - unfold bind. destruct (f a n) as [b n1] eqn:Ea.
    specialize (IH n1). destruct (mapSim f l n1) as [bs n2]. simpl in *.
    constructor; [|exact IH].
    exists n. now rewrite Ea.
Qed.

Lemma mapSim_Forall {A B : Type} (f : A -> Sim B) (P : B -> Prop) :
  (forall a m, P (fst (f a m))) ->
  forall l n, Forall P (fst (mapSim f l n)).
Proof.
  intros HP l n. pose proof (mapSim_Forall2 f l n) as H.
  induction H as [|a b l bs [m ->] _ IH]; constructor; auto.
Qed.

Lemma mapSim_length {A B : Type} (f : A -> Sim B) (l : list A) (n : nat) :
  List.length (fst (mapSim f l n)) = List.length l.
Proof.
  pose proof (mapSim_Forall2 f l n) as H.
  induction H; simpl; congruence.
Qed.

(** ** Clamps *)

Section ClampProperties.

Variable random : nat -> Q.
Variable clock : nat -> Z.
Variable toLocaleTimeString : bool -> Z -> string.

Lemma nextReading_withinClamps (p : Patient) (r1 r2 r3 : Q) (label : string) :
  withinClamps (nextReading p r1 r2 r3 label).
Proof.
  unfold withinClamps, nextReading; simpl.
  repeat split;
    first [ apply max_lower
          | apply max_upper; [unfold Qle; simpl; lia | apply min_upper] ].
Qed.

(** C2. Whatever the previous state of the collection, every patient that
    comes out of a tick carries a current reading with oxygen saturation in
    [60,100], heart rate in [45,140] and blood pressure in [80,200]. *)
Theorem tick_within_clamps (prev : list Patient) (n : nat) :
  Forall (fun p' => exists v, vitals p' = Some v /\ withinClamps v)
         (fst (simulateVitalsUpdate random clock toLocaleTimeString prev n)).
Proof.
  unfold simulateVitalsUpdate. apply mapSim_Forall.
  intros p m. eexists. split; [reflexivity|].
  apply nextReading_withinClamps.
Qed.

End ClampProperties.

(** ** Lists: the last element and [slice(-n)] *)

Lemma nth_error_last_split {A : Type} (l : list A) (v : A) :
  nth_error l (List.length l - 1) = Some v -> exists front, l = (front ++ [v])%list.
Proof.
  intro H. destruct (nth_error_split l _ H) as (l1 & l2 & -> & Hlen).
  rewrite length_app in Hlen. simpl in Hlen.
  destruct l2 as [|x l2]; [now exists l1 | simpl in Hlen; lia].
Qed.

Lemma slice_last_suffix {A : Type} (n : nat) (l : list A) :
  exists dropped, l = (dropped ++ slice_last n l)%list /\
                  List.length (slice_last n l) = Nat.min n (List.length l).
Proof.
  exists (firstn (List.length l - n) l). unfold slice_last. split.
  - symmetry. apply firstn_skipn.
  - rewrite length_skipn. lia.
Qed.

Lemma slice_last_snoc {A : Type} (n : nat) (l : list A) (v : A) :
  (0 < n)%nat -> exists front, slice_last n (l ++ [v]) = (front ++ [v])%list.
Proof.
  intro Hn. unfold slice_last. rewrite length_app. simpl.
  exists (skipn (List.length l + 1 - n) l).
  rewrite skipn_app.
  replace (List.length l + 1 - n - List.length l)%nat with 0%nat by lia.
  reflexivity.
Qed.

(** ** The sort *)

Section SortProperties.

Context {A : Type}.
Variable cmp : A -> A -> option Z.

Lemma insertBy_perm (x : A) (l out : list A) :
  insertBy cmp x l = Some out -> Permutation (x :: l) out.
Proof.
  revert out. induction l as [|y l IH]; simpl; intros out H.
  - injection H as <-. apply Permutation_refl.
  - destruct (cmp x y) as [c|]; [|discriminate].
    destruct (c <=? 0)%Z.
    + injection H as <-. apply Permutation_refl.
    + destruct (insertBy cmp x l) as [r|]; [|discriminate].
      injection H as <-.
      eapply perm_trans; [apply perm_swap|].
      apply perm_skip. now apply IH.
Qed.

Lemma sortBy_perm (l out : list A) :
  sortBy cmp l = Some out -> Permutation l out.
Proof.
  revert out. induction l as [|x l IH]; simpl; intros out H.
  - injection H as <-. constructor.
  - destruct (sortBy cmp l) as [s|]; [|discriminate].
    eapply perm_trans; [apply perm_skip, IH; reflexivity|].
    now apply insertBy_perm.
Qed.

(** The elements on which the comparator is defined and behaves as a
    total preorder decision. *)
Variable ok : A -> Prop.
Variable le : A -> A -> Prop.
Hypothesis cmp_defined : forall a b, ok a -> ok b -> exists c, cmp a b = Some c.
Hypothesis cmp_le : forall a b c, ok a -> ok b -> cmp a b = Some c -> (c <= 0)%Z -> le a b.
Hypothesis cmp_gt : forall a b c, ok a -> ok b -> cmp a b = Some c -> (c > 0)%Z -> le b a.

Lemma insertBy_sorted (x : A) (l : list A) :
  ok x -> Forall ok l -> Sorted le l ->
  exists out, insertBy cmp x l = Some out /\ Sorted le out /\
              (forall z, le z x -> HdRel le z l -> HdRel le z out).
Proof.
  intros Hx Hl Hs. induction l as [|y l IH]; simpl.
  - exists [x]. repeat split; auto.
  - inversion Hl as [|? ? Hy Hl']; subst. inversion Hs as [|? ? Hs' Hhd]; subst.
    destruct (cmp_defined x y Hx Hy) as [c Hc]. rewrite Hc.
    destruct (c <=? 0)%Z eqn:E.
    + exists (x :: y :: l). repeat split; auto.
      constructor; [assumption|]. constructor.
      apply (cmp_le x y c); auto. now apply Z.leb_le.
    + destruct (IH Hl' Hs') as (r & Hr & Hsr & Hhr). rewrite Hr. simpl.
      assert (Hyx : le y x).
      { apply (cmp_gt x y c); auto. apply Z.leb_gt in E. lia. }
      exists (y :: r). repeat split.
      * constructor; [assumption|]. now apply Hhr.
      * intros z _ Hz. inversion Hz; subst. now constructor.
Qed.

Lemma sortBy_sorted (l : list A) :
  Forall ok l -> exists out, sortBy cmp l = Some out /\ Sorted le out.
Proof.
  induction l as [|x l IH]; simpl; intro Hl.
  - exists []. split; [reflexivity | constructor].
  - inversion Hl as [|? ? Hx Hl']; subst.
    destruct (IH Hl') as (s & Hs & Hsorted). rewrite Hs.
    assert (Hoks : Forall ok s).
    { eapply Permutation_Forall; [apply sortBy_perm; exact Hs | exact Hl']. }
    destruct (insertBy_sorted x s Hx Hoks Hsorted) as (out & Hout & Hso & _).
    exists out. split; assumption.
Qed.

End SortProperties.

(** Neighbours in a sorted list are related. *)
Lemma Sorted_adjacent {A : Type} (R : A -> A -> Prop) (l : list A) :
  Sorted R l -> forall l1 a b l2, l = (l1 ++ a :: b :: l2)%list -> R a b.
Proof.
  intros Hs l1. revert l Hs. induction l1 as [|x l1 IH]; intros l Hs a b l2 ->.
  - simpl in Hs. inversion Hs as [|? ? _ Hhd]; subst. now inversion Hhd.
  - simpl in Hs. inversion Hs as [|? ? Hs' _]; subst.
    eapply IH; [exact Hs' | reflexivity].
Qed.

(** ** History and current reading *)

Section HistoryProperties.

Variable random : nat -> Q.
Variable clock : nat -> Z.
Variable toLocaleTimeString : bool -> Z -> string.
Variable localeCompare : string -> string -> Z.

Abbreviation tickPatient := (tickPatient random clock toLocaleTimeString).
Abbreviation tickReading := (tickReading random clock toLocaleTimeString).
Abbreviation simulateVitalsUpdate := (simulateVitalsUpdate random clock toLocaleTimeString).
Abbreviation makeInitialPatients := (makeInitialPatients random clock toLocaleTimeString).

Lemma tickPatient_vitals p m :
  vitals (fst (tickPatient p m)) = Some (tickReading p m).
Proof. reflexivity. Qed.

Lemma tickPatient_history p m :
  history (fst (tickPatient p m)) =
  Some (slice_last 16 (historyOf p ++ [tickReading p m])%list).
Proof. reflexivity. Qed.

Lemma tickPatient_meta p m :
  id (fst (tickPatient p m)) = id p /\ name (fst (tickPatient p m)) = name p /\
  age (fst (tickPatient p m)) = age p /\ ward (fst (tickPatient p m)) = ward p /\
  notes (fst (tickPatient p m)) = notes p /\
  avatarColor (fst (tickPatient p m)) = avatarColor p.
Proof. repeat split. Qed.

Lemma tickPatient_inv p m : historyInv (fst (tickPatient p m)).
Proof.
  destruct (slice_last_snoc 16 (historyOf p) (tickReading p m)) as [front Hf]; [lia|].
  exists (slice_last 16 (historyOf p ++ [tickReading p m])%list), (tickReading p m), front.
  repeat split; try assumption.
  destruct (slice_last_suffix 16 (historyOf p ++ [tickReading p m])%list) as (d & _ & Hlen).
  rewrite Hlen. lia.
Qed.

Lemma tickPatient_tickedFrom p m : tickedFrom p (fst (tickPatient p m)).
Proof.
  destruct (slice_last_suffix 16 (historyOf p ++ [tickReading p m])%list) as (d & Hd & Hlen).
  exists (tickReading p m), d, (slice_last 16 (historyOf p ++ [tickReading p m])%list).
  repeat split; try assumption.
  rewrite Hlen, length_app. simpl. reflexivity.
Qed.

Lemma seedPatient_fst i m :
  exists h,
    h = fst (mapSim (seedReading random toLocaleTimeString
                       (95 - inject_Z (Z.of_nat (i mod 4))) (clock m)) (seq 0 8) m) /\
    fst (seedPatient random clock toLocaleTimeString i m) =
    {| id := ("PT-" ++ decimal (1000 + i))%string;
       name := ("Patient " ++ decimal (i + 1))%string;
       age := (28 + ((Z.of_nat i * 7) mod 25))%Z;
       ward := "General"%string;
       notes := EmptyString;
       history := Some h;
       vitals := nth_error h (List.length h - 1);
       avatarColor := nth (i mod 4) palette EmptyString |}.
Proof.
  eexists. split; [reflexivity|].
  unfold seedPatient, bind, Date_now.
  destruct (mapSim _ (seq 0 8) m) as [h m'] eqn:E. reflexivity.
Qed.

Lemma seedPatient_inv i m :
  historyInv (fst (seedPatient random clock toLocaleTimeString i m)).
Proof.
  destruct (seedPatient_fst i m) as (h & Hh & ->).
  assert (Hlen : List.length h = 8%nat).
  { rewrite Hh, mapSim_length. reflexivity. }
  destruct (nth_error h (List.length h - 1)) as [v|] eqn:Ev.
  - destruct (nth_error_last_split h v Ev) as [front Hf].
    exists h, v, front. simpl. repeat split; try assumption; try lia.
  - apply nth_error_None in Ev. lia.
Qed.

Lemma applyPatch_inv p patch : historyInv p -> historyInv (applyPatch p patch).
Proof. destruct patch; exact (fun H => H). Qed.

(** C3. Seed generation, every tick (before and after the sort) and every
    metadata update leave each patient with a history of at most 16
    readings whose last element is the patient's current reading; a tick
    appends its reading and keeps the last 16, dropping from the front. *)
Theorem history_invariant_preserved :
  (forall n, Forall historyInv (fst (makeInitialPatients n))) /\
  (forall prev n,
      Forall2 (fun p p' => historyInv p' /\ tickedFrom p p')
              prev (fst (simulateVitalsUpdate prev n))) /\
  (forall prev n out,
      fst (tickAndSort localeCompare random clock toLocaleTimeString prev n) = Some out ->
      Forall historyInv out) /\
  (forall id0 patch prev,
      Forall historyInv prev -> Forall historyInv (updateMeta id0 patch prev)).
Proof.
  repeat split.
  - intro n. apply mapSim_Forall. intros i m. apply seedPatient_inv.
  - intros prev n.
    eapply Forall2_impl; [|apply mapSim_Forall2].
    intros p p' [m ->]. split; [apply tickPatient_inv | apply tickPatient_tickedFrom].
  - intros prev n out H.
    unfold tickAndSort, bind in H.
    destruct (simulateVitalsUpdate prev n) as [updated n'] eqn:E.
    simpl in H. apply sortBy_perm in H.
    eapply Permutation_Forall; [exact H|].
    replace updated with (fst (simulateVitalsUpdate prev n)) by now rewrite E.
    apply mapSim_Forall. intros p m. apply tickPatient_inv.
  - intros id0 patch prev H. unfold updateMeta.
    induction H as [|p l Hp _ IH]; simpl; constructor; auto.
    destruct (id p =? id0)%string; [now apply applyPatch_inv | exact Hp].
Qed.

End HistoryProperties.

(** ** Triage order after a tick *)

Lemma leb_of_compare (a b : string) :
  String.compare a b <> Gt -> String.leb a b = true.
Proof. unfold String.leb. destruct (String.compare a b); congruence. Qed.

Section TriageProperties.

Variable random : nat -> Q.
Variable clock : nat -> Z.
Variable toLocaleTimeString : bool -> Z -> string.
Variable localeCompare : string -> string -> Z.

Abbreviation simulateVitalsUpdate := (simulateVitalsUpdate random clock toLocaleTimeString).

Lemma simulateVitalsUpdate_ids (prev : list Patient) (n : nat) :
  map id (fst (simulateVitalsUpdate prev n)) = map id prev.
Proof.
  pose proof (mapSim_Forall2 (tickPatient random clock toLocaleTimeString) prev n) as H.
  fold (simulateVitalsUpdate prev) in H.
  induction H as [|p p' l l' [m ->] _ IH]; simpl; [reflexivity|].
  now rewrite IH.
Qed.

Lemma simulateVitalsUpdate_vitals (prev : list Patient) (n : nat) :
  Forall (fun p' => vitals p' <> None) (fst (simulateVitalsUpdate prev n)).
Proof. apply mapSim_Forall. intros p m. discriminate. Qed.

(** The source guarantees the order on identifiers that collate as their
    code units do; [ids] are the identifiers in play. *)
Variable ids : list string.
Hypothesis collation :
  forall a b, In a ids -> In b ids -> collatesLikeCodeUnits localeCompare a b.

Lemma compareTriage_defined a b :
  sortable ids a -> sortable ids b -> exists c, compareTriage localeCompare a b = Some c.
Proof.
  intros [Ha _] [Hb _]. unfold compareTriage.
  destruct (vitals b); [|congruence]. destruct (vitals a); [|congruence].
  eexists. reflexivity.
Qed.

Lemma compareTriage_le a b c :
  sortable ids a -> sortable ids b ->
  compareTriage localeCompare a b = Some c -> (c <= 0)%Z -> triageOrdered a b.
Proof.
  intros [_ Ia] [_ Ib] Hc Hle. unfold compareTriage in Hc.
  destruct (vitals b) as [vb|] eqn:Eb; [|discriminate].
  destruct (vitals a) as [va|] eqn:Ea; [|discriminate].
  injection Hc as <-.
  exists (severityScore (spo2 va)), (severityScore (spo2 vb)).
  unfold severityOf. rewrite Ea, Eb. simpl. repeat split.
  - destruct (_ =? 0)%Z eqn:E; [apply Z.eqb_eq in E | apply Z.eqb_neq in E]; lia.
  - intro Heq. rewrite Heq, Z.sub_diag in Hle. simpl in Hle.
    apply leb_of_compare. intro Hgt.
    pose proof (collation _ _ Ia Ib) as Hcol. unfold collatesLikeCodeUnits in Hcol.
    rewrite Hgt in Hcol. lia.
Qed.

Lemma compareTriage_gt a b c :
  sortable ids a -> sortable ids b ->
  compareTriage localeCompare a b = Some c -> (c > 0)%Z -> triageOrdered b a.
Proof.
  intros [_ Ia] [_ Ib] Hc Hgt. unfold compareTriage in Hc.
  destruct (vitals b) as [vb|] eqn:Eb; [|discriminate].
  destruct (vitals a) as [va|] eqn:Ea; [|discriminate].
  injection Hc as <-.
  exists (severityScore (spo2 vb)), (severityScore (spo2 va)).
  unfold severityOf. rewrite Ea, Eb. simpl. repeat split.
  - destruct (_ =? 0)%Z eqn:E; [apply Z.eqb_eq in E | apply Z.eqb_neq in E]; lia.
  - intro Heq. rewrite Heq, Z.sub_diag in Hgt. simpl in Hgt.
    apply leb_of_compare. rewrite String.compare_antisym.
    pose proof (collation _ _ Ia Ib) as Hcol. unfold collatesLikeCodeUnits in Hcol.
    destruct (String.compare (id a) (id b)); simpl; (discriminate || lia).
Qed.

Lemma compareTriage_nonzero a b :
  sortable ids a -> sortable ids b -> id a <> id b ->
  compareTriage localeCompare a b <> Some 0%Z.
Proof.
  intros [_ Ia] [_ Ib] Hne Hc. unfold compareTriage in Hc.
  destruct (vitals b) as [vb|]; [|discriminate].
  destruct (vitals a) as [va|]; [|discriminate].
  injection Hc as Hc.
  destruct (_ =? 0)%Z eqn:E; [|apply Z.eqb_neq in E; lia].
  pose proof (collation _ _ Ia Ib) as Hcol. unfold collatesLikeCodeUnits in Hcol.
  destruct (String.compare (id a) (id b)) eqn:Ec; try lia.
  apply String.compare_eq_iff in Ec. contradiction.
Qed.

End TriageProperties.

Section TriageTheorem.

Variable random : nat -> Q.
Variable clock : nat -> Z.
Variable toLocaleTimeString : bool -> Z -> string.
Variable localeCompare : string -> string -> Z.

Abbreviation simulateVitalsUpdate := (simulateVitalsUpdate random clock toLocaleTimeString).

Lemma tickAndSort_fst (prev : list Patient) (n : nat) :
  fst (tickAndSort localeCompare random clock toLocaleTimeString prev n) =
  sortBy (compareTriage localeCompare) (fst (simulateVitalsUpdate prev n)).
Proof.
  unfold tickAndSort, bind.
  destruct (simulateVitalsUpdate prev n) as [updated n']. reflexivity.
Qed.

Lemma updated_sortable (prev : list Patient) (n : nat) :
  Forall (sortable (map id prev)) (fst (simulateVitalsUpdate prev n)).
Proof.
  apply Forall_forall. intros p' Hin. split.
  - pose proof (simulateVitalsUpdate_vitals random clock toLocaleTimeString prev n) as H.
    rewrite Forall_forall in H. now apply H.
  - rewrite <- (simulateVitalsUpdate_ids random clock toLocaleTimeString prev n).
    now apply in_map.
Qed.

(** C4. After a tick the collection is ordered by descending severity of
    the current oxygen saturation, ties by ascending identifier: each
    neighbour pair [(a, b)] has [severity a >= severity b] and, at equal
    severity, [id a <= id b] in code-unit order; and the comparator never
    returns 0 on two distinct entries.  Identifiers are unique, and
    [localeCompare] orders them as their code units do, as it does for
    [PT-] followed by digits. *)
Theorem tick_sorted_by_triage (prev : list Patient) (n : nat) :
  NoDup (map id prev) ->
  (forall a b, In a (map id prev) -> In b (map id prev) ->
               collatesLikeCodeUnits localeCompare a b) ->
  exists out,
    fst (tickAndSort localeCompare random clock toLocaleTimeString prev n) = Some out /\
    Permutation (fst (simulateVitalsUpdate prev n)) out /\
    (forall l1 a b l2, out = (l1 ++ a :: b :: l2)%list -> triageOrdered a b) /\
    (forall l1 a l2 b l3, out = (l1 ++ a :: l2 ++ b :: l3)%list ->
       id a <> id b /\
       compareTriage localeCompare a b <> Some 0%Z /\
       compareTriage localeCompare b a <> Some 0%Z).
Proof.
  intros Hnodup Hcol.
  pose proof (updated_sortable prev n) as Hok.
  destruct (sortBy_sorted (compareTriage localeCompare)
              (sortable (map id prev)) triageOrdered
              (compareTriage_defined localeCompare (map id prev))
              (compareTriage_le localeCompare (map id prev) Hcol)
              (compareTriage_gt localeCompare (map id prev) Hcol)
              _ Hok) as (out & Hout & Hsorted).
  exists out. rewrite tickAndSort_fst.
  pose proof (sortBy_perm _ _ _ Hout) as Hperm.
  split; [exact Hout|]. split; [exact Hperm|]. split.
  - intros l1 a b l2 E. eapply Sorted_adjacent; eassumption.
  - intros l1 a l2 b l3 E. subst out.
    assert (Hne : id a <> id b).
    { assert (Hnd : NoDup (map id (l1 ++ a :: l2 ++ b :: l3)%list)).
      { eapply Permutation_NoDup; [apply Permutation_map; exact Hperm|].
        now rewrite simulateVitalsUpdate_ids. }
      rewrite map_app in Hnd. simpl in Hnd. apply NoDup_remove_2 in Hnd.
      intro Heq. apply Hnd. apply in_or_app. right. rewrite map_app.
      apply in_or_app. right. left. symmetry. exact Heq. }
    assert (Hok' : Forall (sortable (map id prev)) (l1 ++ a :: l2 ++ b :: l3)%list).
    { eapply Permutation_Forall; eassumption. }
    rewrite Forall_forall in Hok'.
    assert (Ha : sortable (map id prev) a).
    { apply Hok'. apply in_or_app. right. now left. }
    assert (Hb : sortable (map id prev) b).
    { apply Hok'. apply in_or_app. right. right. apply in_or_app. right. now left. }
    split; [exact Hne|]. split.
    + eapply compareTriage_nonzero; eauto.
    + eapply compareTriage_nonzero; eauto.
Qed.

End TriageTheorem.

(** ** The arrangement does not depend on the sorting algorithm *)

Lemma ascii_compare_lt_trans (a b c : ascii) :
  Ascii.compare a b = Lt -> Ascii.compare b c = Lt -> Ascii.compare a c = Lt.
Proof. unfold Ascii.compare. rewrite !N.compare_lt_iff. apply N.lt_trans. Qed.

Lemma string_compare_lt_trans (a b c : string) :
  String.compare a b = Lt -> String.compare b c = Lt -> String.compare a c = Lt.
Proof.
  revert b c. induction a as [|x a IH]; intros [|y b] [|z c]; simpl;
    try discriminate; try reflexivity.
  destruct (Ascii.compare x y) eqn:Exy; try discriminate.
  - apply Ascii.compare_eq_iff in Exy. subst y.
    destruct (Ascii.compare x z); try discriminate; auto. apply IH.
  - intros _. destruct (Ascii.compare y z) eqn:Eyz; try discriminate.
    + apply Ascii.compare_eq_iff in Eyz. subst z. now rewrite Exy.
    + intros _. now rewrite (ascii_compare_lt_trans _ _ _ Exy Eyz).
Qed.

Lemma string_leb_trans (a b c : string) :
  String.leb a b = true -> String.leb b c = true -> String.leb a c = true.
Proof.
  unfold String.leb.
  destruct (String.compare a b) eqn:Eab; try discriminate; intros _.
  - apply String.compare_eq_iff in Eab. now subst b.
  - destruct (String.compare b c) eqn:Ebc; try discriminate; intros _.
    + apply String.compare_eq_iff in Ebc. subst c. now rewrite Eab.
    + now rewrite (string_compare_lt_trans _ _ _ Eab Ebc).
Qed.

Lemma triageOrdered_trans (a b c : Patient) :
  triageOrdered a b -> triageOrdered b c -> triageOrdered a c.
Proof.
  intros (sa & sb & Ha & Hb & Hab & Iab) (sb' & sc & Hb' & Hc & Hbc & Ibc).
  rewrite Hb in Hb'. injection Hb' as <-.
  exists sa, sc. repeat split; try assumption; try lia.
  intro E. assert (sa = sb) by lia. assert (sb = sc) by lia.
  eapply string_leb_trans; eauto.
Qed.

Lemma NoDup_map_injective {A B : Type} (f : A -> B) (l : list A) (x y : A) :
  NoDup (map f l) -> In x l -> In y l -> f x = f y -> x = y.
Proof.
  induction l as [|a l IH]; simpl; intros Hnd Hx Hy E; [contradiction|].
  inversion Hnd as [|? ? Hnotin Hnd']; subst.
  destruct Hx as [->|Hx], Hy as [->|Hy]; auto.
  - exfalso. apply Hnotin. rewrite E. now apply in_map.
  - exfalso. apply Hnotin. rewrite <- E. now apply in_map.
Qed.

Lemma StronglySorted_impl {A : Type} (R R' : A -> A -> Prop) (l : list A) :
  (forall a b, In a l -> In b l -> R a b -> R' a b) ->
  StronglySorted R l -> StronglySorted R' l.
Proof.
  intros Himp H. induction H as [|a l Hs IH Hall]; constructor.
  - apply IH. intros x y Hx Hy. apply Himp; now right.
  - rewrite Forall_forall in *. intros b Hb.
    apply Himp; [now left | now right | now apply Hall].
Qed.

(** Two strongly sorted arrangements of the same elements, for a relation
    that is antisymmetric on them, are the same list. *)
Lemma StronglySorted_unique {A : Type} (R : A -> A -> Prop) (l1 l2 : list A) :
  (forall a b, In a l1 -> In b l1 -> R a b -> R b a -> a = b) ->
  Permutation l1 l2 -> StronglySorted R l1 -> StronglySorted R l2 -> l1 = l2.
Proof.
  revert l2. induction l1 as [|a l1 IH]; intros l2 Hanti Hperm H1 H2.
  - apply Permutation_nil in Hperm. now subst.
  - destruct l2 as [|b l2].
    { apply Permutation_sym, Permutation_nil in Hperm. discriminate. }
    apply StronglySorted_inv in H1. destruct H1 as [H1 Ha].
    apply StronglySorted_inv in H2. destruct H2 as [H2 Hb].
    rewrite Forall_forall in Ha, Hb.
    assert (Hin_b : In b (a :: l1)).
    { eapply Permutation_in; [apply Permutation_sym; exact Hperm | now left]. }
    assert (Hin_a : In a (b :: l2)).
    { eapply Permutation_in; [exact Hperm | now left]. }
    assert (E : a = b).
    { destruct Hin_b as [E|Hb1]; [exact E|].
      destruct Hin_a as [E|Ha2]; [now symmetry|].
      apply Hanti; [now left | now right | now apply Ha | now apply Hb]. }
    subst b. f_equal.
    apply IH; try assumption.
    + intros x y Hx Hy. apply Hanti; now right.
    + eapply Permutation_cons_inv. exact Hperm.
Qed.

Section TriageUnique.

Variable random : nat -> Q.
Variable clock : nat -> Z.
Variable toLocaleTimeString : bool -> Z -> string.
Variable localeCompare : string -> string -> Z.
Variable ids : list string.
Hypothesis collation :
  forall a b, In a ids -> In b ids -> collatesLikeCodeUnits localeCompare a b.

Lemma triageOrdered_precedes (a b : Patient) :
  sortable ids a -> sortable ids b -> triageOrdered a b -> precedes localeCompare a b.
Proof.
  intros [Ha Ia] [Hb Ib] (sa & sb & Hsa & Hsb & Hge & Hid).
  unfold precedes, compareTriage. unfold severityOf in Hsa, Hsb.
  destruct (vitals b) as [vb|]; [|congruence].
  destruct (vitals a) as [va|]; [|congruence].
  simpl in Hsa, Hsb. injection Hsa as <-. injection Hsb as <-.
  eexists. split; [reflexivity|].
  destruct (_ =? 0)%Z eqn:E; [apply Z.eqb_eq in E | lia].
  assert (Hleb : String.leb (id a) (id b) = true) by (apply Hid; lia).
  pose proof (collation _ _ Ia Ib) as Hcol.
  unfold collatesLikeCodeUnits in Hcol. unfold String.leb in Hleb.
  destruct (String.compare (id a) (id b)); (discriminate || lia).
Qed.

Lemma precedes_antisym (a b : Patient) :
  sortable ids a -> sortable ids b ->
  precedes localeCompare a b -> precedes localeCompare b a -> id a = id b.
Proof.
  intros [_ Ia] [_ Ib] (c1 & H1 & L1) (c2 & H2 & L2).
  unfold compareTriage in H1, H2.
  destruct (vitals b) as [vb|]; [|discriminate].
  destruct (vitals a) as [va|]; [|discriminate].
  injection H1 as <-. injection H2 as <-.
  destruct (_ =? 0)%Z eqn:E1 in L1; [apply Z.eqb_eq in E1 | apply Z.eqb_neq in E1].
  - replace (severityScore (spo2 va) - severityScore (spo2 vb))%Z with 0%Z in L2 by lia.
    simpl in L2.
    pose proof (collation _ _ Ia Ib) as Hab. pose proof (collation _ _ Ib Ia) as Hba.
    unfold collatesLikeCodeUnits in Hab, Hba.
    rewrite (String.compare_antisym (id b) (id a)) in Hba.
    destruct (String.compare (id a) (id b)) eqn:Ec; simpl in Hba; try lia.
    now apply String.compare_eq_iff.
  - destruct (_ =? 0)%Z eqn:E2 in L2; [apply Z.eqb_eq in E2 | apply Z.eqb_neq in E2]; lia.
Qed.

End TriageUnique.

(** Whatever algorithm [Array.prototype.sort] runs, it must return an
    arrangement of the ticked patients in which the comparator lets each
    entry stand before every later one; there is only one, the one
    [tickAndSort] computes. *)
Lemma triage_arrangement_unique
    (random : nat -> Q) (clock : nat -> Z) (toLocaleTimeString : bool -> Z -> string)
    (localeCompare : string -> string -> Z)
    (prev out out' : list Patient) (n : nat) :
  NoDup (map id prev) ->
  (forall a b, In a (map id prev) -> In b (map id prev) ->
               collatesLikeCodeUnits localeCompare a b) ->
  fst (tickAndSort localeCompare random clock toLocaleTimeString prev n) = Some out ->
  Permutation (fst (simulateVitalsUpdate random clock toLocaleTimeString prev n)) out' ->
  StronglySorted (precedes localeCompare) out' ->
  out' = out.
Proof.
  intros Hnodup Hcol Hout Hperm' Hsorted'.
  pose proof (updated_sortable random clock toLocaleTimeString prev n) as Hok.
  destruct (sortBy_sorted (compareTriage localeCompare)
              (sortable (map id prev)) triageOrdered
              (compareTriage_defined localeCompare (map id prev))
              (compareTriage_le localeCompare (map id prev) Hcol)
              (compareTriage_gt localeCompare (map id prev) Hcol)
              _ Hok) as (out0 & Hout0 & Hs).
  rewrite tickAndSort_fst, Hout0 in Hout. injection Hout as <-.
  pose proof (sortBy_perm _ _ _ Hout0) as Hperm.
  assert (Hok0 : forall p, In p out0 -> sortable (map id prev) p).
  { apply Forall_forall. eapply Permutation_Forall; eassumption. }
  assert (Hok' : forall p, In p out' -> sortable (map id prev) p).
  { apply Forall_forall. eapply Permutation_Forall; eassumption. }
  assert (Hnd' : NoDup (map id out')).
  { eapply Permutation_NoDup; [apply Permutation_map; exact Hperm'|].
    now rewrite simulateVitalsUpdate_ids. }
  apply (StronglySorted_unique (precedes localeCompare)).
  - intros a b Ha Hb Hab Hba.
    apply (NoDup_map_injective id out'); try assumption.
    eapply precedes_antisym; eauto.
  - eapply Permutation_trans; [apply Permutation_sym; exact Hperm' | exact Hperm].
  - exact Hsorted'.
  - apply (StronglySorted_impl triageOrdered).
    + intros a b Ha Hb. apply (triageOrdered_precedes localeCompare (map id prev)); auto.
    + apply Sorted_StronglySorted; [|exact Hs].
      intros x y z. apply triageOrdered_trans.
Qed.

(** ** The oxygen delta *)

Lemma Qfloor_lt_iff (x : Q) (z : Z) : (Qfloor x < z)%Z <-> x < inject_Z z.
Proof.
  split; intro H.
  - eapply Qlt_le_trans; [apply Qlt_floor|].
    rewrite <- Zle_Qle. lia.
  - rewrite Zlt_Qlt. eapply Qle_lt_trans; [apply Qfloor_le | exact H].
Qed.

Lemma Qfloor_ge_iff (x : Q) (z : Z) : (z <= Qfloor x)%Z <-> inject_Z z <= x.
Proof.
  split; intro H.
  - eapply Qle_trans; [|apply Qfloor_le]. now rewrite <- Zle_Qle.
  - destruct (Z.le_gt_cases z (Qfloor x)) as [Hle|Hgt]; [exact Hle|].
    apply Qfloor_lt_iff in Hgt. apply Qlt_not_le in Hgt. contradiction.
Qed.

(** C5, as the code has it. For a draw [r] in [0,1) the delta
    [Math.round((r - 0.65) * 4)] is an integer between -3 and 1; it is
    strictly negative exactly when [r < 0.525], zero exactly when
    [0.525 <= r < 0.775] and positive exactly when [r >= 0.775].  Under a
    uniform source the three events have probabilities 0.525, 0.25 and 0.225;
    it is the unrounded value [(r - 0.65) * 4] that is negative with
    probability 0.65. *)
Theorem delta_distribution (r : Q) :
  0 <= r -> r < 1 ->
  (-3 <= delta r <= 1)%Z /\
  ((delta r < 0)%Z <-> r < 21 # 40) /\
  (delta r = 0%Z <-> 21 # 40 <= r /\ r < 31 # 40) /\
  ((delta r > 0)%Z <-> 31 # 40 <= r) /\
  ((r - 0.65) * 4 < 0 <-> r < 13 # 20).
Proof.
  intros H0 H1. unfold delta, JsMath.round.
  set (x := (r - 0.65) * 4 + (1 # 2)).
  assert (Hx : x == 4 * r - (21 # 10)) by (unfold x; field).
  assert (Hneg : (Qfloor x < 0)%Z <-> r < 21 # 40).
  { rewrite Qfloor_lt_iff. unfold inject_Z. split; intro; lra. }
  assert (Hpos : (1 <= Qfloor x)%Z <-> 31 # 40 <= r).
  { rewrite Qfloor_ge_iff. unfold inject_Z. split; intro; lra. }
  assert (Hlo : (-3 <= Qfloor x)%Z).
  { apply Qfloor_ge_iff. unfold inject_Z. lra. }
  assert (Hhi : (Qfloor x < 2)%Z).
  { apply Qfloor_lt_iff. unfold inject_Z. lra. }
  repeat split; try lia.
  - apply Hneg.
  - apply Hneg.
  - apply Qnot_lt_le. intro Hc. apply Hneg in Hc. lia.
  - apply Qnot_le_lt. intro Hc. apply Hpos in Hc. lia.
  - intros [Ha Hb].
    assert (~ (Qfloor x < 0)%Z) by (rewrite Hneg; lra).
    assert (~ (1 <= Qfloor x)%Z) by (rewrite Hpos; lra).
    lia.
  - intro Hc. apply Hpos. lia.
  - intro Hc. apply Hpos in Hc. lia.
  - intro; lra.
  - intro; lra.
Qed.

(** The draw 0.6 lies below the bias constant 0.65, yet its delta is 0. *)
Lemma delta_distribution_witness :
  delta (3 # 5) = 0%Z /\ ((3 # 5) - 0.65) * 4 < 0.
Proof.
  destruct (delta_distribution (3 # 5)) as (_ & _ & Hz & _ & Hraw);
    [unfold Qle; simpl; lia | unfold Qlt; simpl; lia |].
  split.
  - apply Hz. split; [unfold Qle; simpl; lia | unfold Qlt; simpl; lia].
  - apply Hraw. unfold Qlt; simpl; lia.
Defined.

(** C5 as stated fails: of 1000 equally spaced draws, 525 give a strictly
    negative delta, not about 650. *)
Lemma delta_negative_share_counterexample :
  negativeDraws 1000%positive = 525%nat /\ negativeDraws 1000%positive <> 650%nat.
Proof. split; [vm_compute; reflexivity | vm_compute; discriminate]. Qed.

(** ** Integer-valued readings *)

Lemma is_integer_inject (z : Z) : JsMath.is_integer (inject_Z z).
Proof. unfold JsMath.is_integer. now rewrite Qfloor_Z. Qed.

Lemma is_integer_plus (a : Q) (d : Z) :
  JsMath.is_integer a -> JsMath.is_integer (a + inject_Z d).
Proof.
  unfold JsMath.is_integer. intro Ha.
  assert (E : a + inject_Z d == inject_Z (Qfloor a + d)).
  { rewrite inject_Z_plus, Ha. reflexivity. }
  rewrite (Qfloor_comp _ _ E), Qfloor_Z. symmetry. exact E.
Qed.

Lemma is_integer_clamp (lo hi : Z) (x : Q) :
  JsMath.is_integer x ->
  JsMath.is_integer (JsMath.max (inject_Z lo) (JsMath.min (inject_Z hi) x)).
Proof.
  intro Hx. unfold JsMath.max, JsMath.min.
  destruct (Qle_bool (inject_Z hi) x);
    match goal with |- context [Qle_bool ?a ?b] => destruct (Qle_bool a b) end;
    auto using is_integer_inject.
Qed.

Section ReadingProperties.

Variable random : nat -> Q.
Variable clock : nat -> Z.
Variable toLocaleTimeString : bool -> Z -> string.

Abbreviation tick := (tickPatient random clock toLocaleTimeString).
Abbreviation reading := (tickReading random clock toLocaleTimeString).
Abbreviation makeInitialPatients := (makeInitialPatients random clock toLocaleTimeString).

Lemma seedReading_spo2 base now idx m :
  80 <= spo2 (fst (seedReading random toLocaleTimeString base now idx m)) <= 100.
Proof.
  unfold seedReading, bind, Math_random, ret; simpl.
  apply clamp_range. unfold Qle; simpl; lia.
Qed.

(** C9, as the code has it. Every seed reading's oxygen saturation is a
    number in [80,100], not rounded; every tick's oxygen saturation is in
    [60,100], and it is integer-valued whenever the value it starts from
    (the previous saturation, or the default 97) is, the delta being an
    integer. *)
Theorem spo2_range_and_integrality :
  (forall n,
      Forall (fun p => Forall (fun r => 80 <= spo2 r <= 100) (historyOf p))
             (fst (makeInitialPatients n))) /\
  (forall p m,
      60 <= spo2 (reading p m) <= 100 /\
      (JsMath.is_integer (prevSpo2 p) -> JsMath.is_integer (spo2 (reading p m)))).
Proof.
  split.
  - intro n. apply mapSim_Forall. intros i m.
    destruct (seedPatient_fst random clock toLocaleTimeString i m) as (h & Hh & ->).
    unfold historyOf; simpl. rewrite Hh.
    apply mapSim_Forall. intros idx k. apply seedReading_spo2.
  - intros p m. split.
    + apply (nextReading_withinClamps p).
    + intro Hint. unfold tickReading, nextReading; simpl.
      apply (is_integer_clamp 60 100). now apply is_integer_plus.
Qed.

(** C10. A patient without a current reading is ticked from the defaults
    97, 70 and 120; a patient without a history gets a history made of the
    new reading alone; and the tick and the sort that follows always
    produce a result. *)
Theorem tick_defaults (p : Patient) (m : nat) :
  (vitals p = None ->
     spo2 (reading p m) =
       JsMath.max 60 (JsMath.min 100 (97 + inject_Z (delta (random m)))) /\
     hr (reading p m) =
       JsMath.max 45 (JsMath.min 140
         (inject_Z (JsMath.round (70 + (random (S m) * 6 - 3))))) /\
     bp (reading p m) =
       JsMath.max 80 (JsMath.min 200
         (inject_Z (JsMath.round (120 + (random (S (S m)) * 6 - 3)))))) /\
  (history p = None ->
     history (fst (tick p m)) = Some [reading p m]) /\
  vitals (fst (tick p m)) = Some (reading p m) /\
  (forall localeCompare prev n,
     exists out,
       fst (tickAndSort localeCompare random clock toLocaleTimeString prev n) = Some out /\
       List.length out = List.length prev).
Proof.
  repeat split.
  - unfold tickReading, nextReading, prevSpo2. rewrite H. reflexivity.
  - unfold tickReading, nextReading. rewrite H. reflexivity.
  - unfold tickReading, nextReading. rewrite H. reflexivity.
  - intro H. unfold tickPatient, bind, historyOf; simpl. rewrite H. reflexivity.
  - intros lc prev n.
    rewrite tickAndSort_fst.
    destruct (sortBy_sorted (compareTriage lc) (fun q => vitals q <> None)
                (fun _ _ => True)) with
      (l := fst (simulateVitalsUpdate random clock toLocaleTimeString prev n))
      as (out & Hout & _); auto.
    + intros a b Ha Hb. unfold compareTriage.
      destruct (vitals b); [|congruence]. destruct (vitals a); [|congruence].
      eexists; reflexivity.
    + apply simulateVitalsUpdate_vitals.
    + exists out. split; [exact Hout|].
      apply sortBy_perm in Hout. apply Permutation_length in Hout.
      rewrite <- Hout. apply mapSim_length.
Qed.

End ReadingProperties.

(** ** Objects *)

Lemma getProp_setProp_eq (k : string) (v : value) (o : object) :
  getProp k (setProp k v o) = v.
Proof.
  induction o as [|[k' v'] o IH]; simpl.
  - now rewrite String.eqb_refl.
  - destruct (k' =? k)%string eqn:E; simpl.
    + now rewrite String.eqb_refl.
    + now rewrite E.
Qed.

Lemma getProp_setProp_ne (k k' : string) (v : value) (o : object) :
  k <> k' -> getProp k' (setProp k v o) = getProp k' o.
Proof.
  intro Hne. induction o as [|[k0 v0] o IH]; simpl.
  - apply String.eqb_neq in Hne. now rewrite Hne.
  - destruct (k0 =? k)%string eqn:E; simpl.
    + apply String.eqb_eq in E. subst k0.
      apply String.eqb_neq in Hne. now rewrite Hne.
    + destruct (k0 =? k')%string; [reflexivity | exact IH].
Qed.

Lemma hasKey_false_notin (k : string) (o : object) :
  ~ In k (map fst o) -> hasKey k o = false.
Proof.
  unfold hasKey. induction o as [|[k' v'] o IH]; simpl; intro H; [reflexivity|].
  rewrite IH by tauto.
  destruct (k =? k')%string eqn:E; [|reflexivity].
  apply String.eqb_eq in E. subst. tauto.
Qed.

Lemma hasKey_true_in (k : string) (o : object) :
  hasKey k o = true -> In k (map fst o).
Proof.
  unfold hasKey. rewrite existsb_exists. intros (x & Hin & E).
  apply String.eqb_eq in E. now subst.
Qed.

(** Reading a property of [{ ...o, ...props }]: the spread object wins. *)
Lemma spread_getProp (k : string) (props o : object) :
  NoDup (map fst props) ->
  getProp k (spread o (VObj props)) =
  if hasKey k props then getProp k props else getProp k o.
Proof.
  unfold spread; simpl. revert o.
  induction props as [|[k1 v1] rest IH]; intros o Hnd; simpl; [reflexivity|].
  inversion Hnd as [|? ? Hnotin Hnd']; subst.
  rewrite IH by assumption. unfold hasKey; simpl. fold (hasKey k rest).
  destruct (String.eqb_spec k k1) as [->|Hne].
  - rewrite (hasKey_false_notin k1 rest Hnotin). simpl.
    rewrite String.eqb_refl. apply getProp_setProp_eq.
  - simpl. destruct (String.eqb_spec k1 k) as [E|_]; [congruence|].
    destruct (hasKey k rest); [reflexivity|].
    apply getProp_setProp_ne. congruence.
Qed.

Lemma getProp_Forall (P : value -> Prop) (k : string) (o : object) :
  Forall (fun kv => P (snd kv)) o -> getProp k o = VUndefined \/ P (getProp k o).
Proof.
  induction 1 as [|[k' v'] o Hv _ IH]; simpl; [now left|].
  destruct (k' =? k)%string; [now right | exact IH].
Qed.

Lemma mapOpt_total {A B : Type} (f : A -> B) (l : list A) :
  mapOpt (fun a => Some (f a)) l = Some (map f l).
Proof. induction l as [|a l IH]; simpl; [reflexivity | now rewrite IH]. Qed.

Lemma mapOpt_ext {A B : Type} (f g : A -> option B) (l : list A) :
  (forall a, f a = g a) -> mapOpt f l = mapOpt g l.
Proof. intro H. induction l as [|a l IH]; simpl; [reflexivity | now rewrite H, IH]. Qed.

(** ** Hydration and persistence *)

Lemma Forall2_map_right {A B : Type} (R : A -> B -> Prop) (f : A -> B) (l : list A) :
  (forall a, In a l -> R a (f a)) -> Forall2 R l (map f l).
Proof.
  induction l as [|a l IH]; simpl; intro H; constructor; auto.
Qed.

Lemma storedText_setItem (text : string) (st : Storage) :
  text <> EmptyString -> storedText (setItem STORAGE_KEY text st) = text.
Proof.
  intro Hne. unfold storedText, getItem, setItem.
  rewrite String.eqb_refl.
  destruct (String.eqb_spec text EmptyString); [contradiction | reflexivity].
Qed.

Section HydrationProperties.

Variable JSON_parse : string -> option value.

Lemma hydrate_object (st : Storage) (seeded : list Patient) (entries : object) :
  JSON_parse (storedText st) = Some (VObj entries) ->
  hydrate JSON_parse st seeded =
  map (fun p => spread (patientObject p) (getProp (id p) entries)) seeded.
Proof.
  intro H. unfold hydrate. rewrite H.
  rewrite (mapOpt_ext _ (fun p => Some (spread (patientObject p) (getProp (id p) entries))))
    by reflexivity.
  now rewrite mapOpt_total.
Qed.

Lemma hydrate_not_object (st : Storage) (seeded : list Patient) (meta : value) :
  JSON_parse (storedText st) = Some meta ->
  match meta with VObj _ => False | _ => True end ->
  hydrate JSON_parse st seeded = map patientObject seeded.
Proof.
  intros H Hshape. unfold hydrate. rewrite H.
  destruct meta; try contradiction;
    try (destruct seeded; reflexivity);
    (rewrite (mapOpt_ext _ (fun p => Some (patientObject p))) by reflexivity;
     now rewrite mapOpt_total).
Qed.

(** The case of the expected shape.  When the stored record has the
    expected shape, hydration changes
    no field of a seed patient other than [notes] and [ward]: every other
    property, the identifier among them, is read as on the seed, and
    [notes] and [ward] are the stored ones where the record has them and
    the seed's otherwise. *)
Lemma hydrate_overrides_only_metadata
    (st : Storage) (seeded : list Patient) (entries : object) :
  JSON_parse (storedText st) = Some (VObj entries) ->
  expectedShape (VObj entries) ->
  Forall2
    (fun p o =>
       (forall k, k <> "notes"%string -> k <> "ward"%string ->
                  getProp k o = getProp k (patientObject p)) /\
       getProp "id" o = VStr (id p) /\
       (forall k, k = "notes"%string \/ k = "ward"%string ->
                  getProp k o =
                  match storedField k (getProp (id p) entries) with
                  | Some v => v
                  | None => getProp k (patientObject p)
                  end))
    seeded (hydrate JSON_parse st seeded).
Proof.
  intros Hparse (entries' & Heq & Hshape). injection Heq as <-.
  rewrite (hydrate_object st seeded entries Hparse).
  apply Forall2_map_right. intros p _.
  assert (Hget : forall k,
             getProp k (spread (patientObject p) (getProp (id p) entries)) =
             match storedField k (getProp (id p) entries) with
             | Some v => v
             | None => getProp k (patientObject p)
             end).
  { intro k.
    destruct (getProp_Forall metadataEntry (id p) entries Hshape)
      as [-> | (props & -> & Hnd & _)].
    - reflexivity.
    - rewrite spread_getProp by assumption. simpl.
      now destruct (hasKey k props). }
  assert (Hother : forall k, k <> "notes"%string -> k <> "ward"%string ->
             storedField k (getProp (id p) entries) = None).
  { intros k Hn Hw.
    destruct (getProp_Forall metadataEntry (id p) entries Hshape)
      as [-> | (props & -> & _ & Hkeys)]; [reflexivity|].
    simpl. destruct (hasKey k props) eqn:E; [|reflexivity].
    apply hasKey_true_in, Hkeys in E. tauto. }
  repeat split.
  - intros k Hn Hw. now rewrite Hget, Hother.
  - rewrite Hget, Hother; [reflexivity | discriminate | discriminate].
  - intros k _. apply Hget.
Qed.

(** C7, as the code has it. When nothing is stored under the key, or the
    empty string is, or the stored text is rejected by [JSON.parse], or it
    parses to something that is not an object, hydration returns the seed
    patients unchanged. *)
Theorem hydrate_falls_back_to_seed (st : Storage) (seeded : list Patient) :
  JSON_parse "{}"%string = Some (VObj []) ->
  getItem st STORAGE_KEY = None \/
  getItem st STORAGE_KEY = Some EmptyString \/
  JSON_parse (storedText st) = None \/
  (exists meta, JSON_parse (storedText st) = Some meta /\
                match meta with VObj _ => False | _ => True end) ->
  hydrate JSON_parse st seeded = map patientObject seeded.
Proof.
  intros Hempty [Habsent | [Hblank | [Hfail | (meta & Hparse & Hshape)]]].
  - rewrite (hydrate_object st seeded []).
    + apply map_ext. intro p. reflexivity.
    + unfold storedText. now rewrite Habsent.
  - rewrite (hydrate_object st seeded []).
    + apply map_ext. intro p. reflexivity.
    + unfold storedText. now rewrite Hblank.
  - unfold hydrate. now rewrite Hfail.
  - eapply hydrate_not_object; eassumption.
Qed.

End HydrationProperties.

Section HydrationMerge.

Variable JSON_parse : string -> option value.

(** C6, as the code has it. When the stored record parses to an object,
    hydration copies every own property of the stored per-patient entry
    onto the seed patient: a property the entry has overrides the seed's
    value whatever its name, the identifier included, and a property it
    lacks is read as on the seed.  When the entry has no property other
    than [notes] and [ward], these are the only fields overridden and the
    identifier is the seed's. *)
Theorem hydrate_merges_stored_properties
    (st : Storage) (seeded : list Patient) (entries : object) :
  JSON_parse (storedText st) = Some (VObj entries) ->
  Forall (fun kv => NoDup (map fst (ownEntries (snd kv)))) entries ->
  Forall2
    (fun p o =>
       let stored := ownEntries (getProp (id p) entries) in
       (forall k, getProp k o =
                  if hasKey k stored then getProp k stored
                  else getProp k (patientObject p)) /\
       ((forall k, hasKey k stored = true -> k = "notes"%string \/ k = "ward"%string) ->
        getProp "id" o = VStr (id p) /\
        forall k, k <> "notes"%string -> k <> "ward"%string ->
                  getProp k o = getProp k (patientObject p)))
    seeded (hydrate JSON_parse st seeded).
Proof.
  intros Hparse Hkeys.
  rewrite (hydrate_object JSON_parse st seeded entries Hparse).
  apply Forall2_map_right. intros p _.
  set (m := getProp (id p) entries).
  assert (Hnd : NoDup (map fst (ownEntries m))).
  { destruct (getProp_Forall (fun v => NoDup (map fst (ownEntries v)))
                (id p) entries Hkeys) as [E|H]; [|exact H].
    unfold m. rewrite E. constructor. }
  assert (Hget : forall k,
             getProp k (spread (patientObject p) m) =
             if hasKey k (ownEntries m) then getProp k (ownEntries m)
             else getProp k (patientObject p)).
  { intro k.
    change (spread (patientObject p) m)
      with (spread (patientObject p) (VObj (ownEntries m))).
    now apply spread_getProp. }
  cbv zeta. split; [exact Hget|].
  intro Honly.
  assert (Hother : forall k, k <> "notes"%string -> k <> "ward"%string ->
             hasKey k (ownEntries m) = false).
  { intros k Hn Hw. destruct (hasKey k (ownEntries m)) eqn:E; [|reflexivity].
    destruct (Honly k E); contradiction. }
  split.
  - rewrite Hget, Hother; [reflexivity | discriminate | discriminate].
  - intros k Hn Hw. now rewrite Hget, Hother.
Qed.

End HydrationMerge.

(** ** Round trip of the metadata *)

(** The mapping the persistence effect writes always has the expected
    shape, whatever the collection. *)
Lemma setProp_Forall (P : value -> Prop) (k : string) (v : value) (o : object) :
  P v -> Forall (fun kv => P (snd kv)) o -> Forall (fun kv => P (snd kv)) (setProp k v o).
Proof.
  intros Hv. induction 1 as [|[k' v'] o Hhd Htl IH]; simpl.
  - constructor; [exact Hv | constructor].
  - destruct (k' =? k)%string; constructor; auto.
Qed.

Lemma metaOf_fold_shape (patients : list Patient) (acc : object) :
  Forall (fun kv => metadataEntry (snd kv)) acc ->
  Forall (fun kv => metadataEntry (snd kv))
    (fold_left
       (fun acc p =>
          setProp (id p)
            (VObj [("notes", VStr (notes p)); ("ward", VStr (ward p))]%string) acc)
       patients acc).
Proof.
  revert acc. induction patients as [|p ps IH]; intros acc Hacc; simpl; [exact Hacc|].
  apply IH. apply setProp_Forall; [|exact Hacc].
  eexists. split; [reflexivity|]. split.
  - repeat constructor; simpl; intuition discriminate.
  - simpl. intuition.
Qed.

Lemma metaOf_expectedShape (patients : list Patient) : expectedShape (metaOf patients).
Proof.
  unfold metaOf. eexists. split; [reflexivity|].
  apply metaOf_fold_shape. constructor.
Qed.


Lemma updateMeta_ids (pid : string) (patch : MetaPatch) (prev : list Patient) :
  map id (updateMeta pid patch prev) = map id prev.
Proof.
  unfold updateMeta. rewrite map_map. apply map_ext.
  intro p. destruct (id p =? pid)%string; [now destruct patch | reflexivity].
Qed.

Lemma updateMeta_notes_ward (pid n w : string) (prev : list Patient) (q : Patient) :
  In q (updateMeta pid (PatchWard w) (updateMeta pid (PatchNotes n) prev)) ->
  id q = pid -> notes q = n /\ ward q = w.
Proof.
  unfold updateMeta. rewrite map_map. rewrite in_map_iff.
  intros (q0 & <- & _) Hid.
  destruct (id q0 =? pid)%string eqn:E0; simpl in *.
  - rewrite E0. simpl. split; reflexivity.
  - rewrite E0 in Hid |- *. apply String.eqb_neq in E0. contradiction.
Qed.

(** The entry [metaOf] holds for [pid] when every patient with that
    identifier carries the same notes and ward. *)
Lemma metaOf_fold_entry (pid : string) (E : value) (ps : list Patient) (acc : object) :
  (forall q, In q ps -> id q = pid ->
             VObj [("notes", VStr (notes q)); ("ward", VStr (ward q))]%string = E) ->
  In pid (map id ps) \/ getProp pid acc = E ->
  getProp pid
    (fold_left
       (fun acc p =>
          setProp (id p)
            (VObj [("notes", VStr (notes p)); ("ward", VStr (ward p))]%string) acc)
       ps acc) = E.
Proof.
  revert acc. induction ps as [|q rest IH]; intros acc Hall Hin; simpl.
  - destruct Hin as [[]|Hacc]. exact Hacc.
  - apply IH; [intros q' Hq'; apply Hall; now right|].
    destruct (String.eqb_spec (id q) pid) as [Eq|Hne].
    + right. rewrite <- Eq at 1. rewrite getProp_setProp_eq. apply Hall; [now left | exact Eq].
    + destruct Hin as [[Hhd|Htl]|Hacc].
      * contradiction.
      * now left.
      * right. now rewrite getProp_setProp_ne.
Qed.

Section RoundTrip.

Variable JSON_parse : string -> option value.
Variable JSON_stringify : value -> string.

(** C8. Edit the notes and the ward of a patient, let the persistence
    effect write the mapping, and hydrate a seed from the store: the seed
    patient with that identifier comes back with the edited notes and
    ward.  [JSON.parse] must read back what [JSON.stringify] wrote for
    this mapping, and reject the empty text. *)
Theorem metadata_roundtrip
    (prev seeded : list Patient) (pid n w : string) (st : Storage) :
  let patients := updateMeta pid (PatchWard w) (updateMeta pid (PatchNotes n) prev) in
  In pid (map id prev) ->
  JSON_parse (JSON_stringify (metaOf patients)) = Some (metaOf patients) ->
  JSON_parse EmptyString = None ->
  Forall2
    (fun p o =>
       id p = pid ->
       getProp "id" o = VStr pid /\
       getProp "notes" o = VStr n /\ getProp "ward" o = VStr w)
    seeded
    (hydrate JSON_parse (persistMeta JSON_stringify patients st) seeded).
Proof.
  intros patients Hin Hround Hblank.
  assert (Hne : JSON_stringify (metaOf patients) <> EmptyString).
  { intro E. rewrite E in Hround. congruence. }
  unfold persistMeta.
  unfold metaOf in Hround at 2.
  erewrite hydrate_object
    by (rewrite storedText_setItem by exact Hne; exact Hround).
  apply Forall2_map_right. intros p _ Hid.
  rewrite Hid.
  rewrite (metaOf_fold_entry pid
             (VObj [("notes", VStr n); ("ward", VStr w)]%string) patients []).
  - rewrite !spread_getProp by (repeat constructor; simpl; intuition discriminate).
    simpl. now rewrite Hid.
  - intros q Hq Hqid. subst patients.
    destruct (updateMeta_notes_ward pid n w prev q Hq Hqid) as [-> ->]. reflexivity.
  - left. subst patients. now rewrite !updateMeta_ids.
Qed.

End RoundTrip.

(** ** The properties on concrete runs *)

Lemma historyInv_check (p : Patient) (h : list Reading) (v : Reading) :
  history p = Some h -> vitals p = Some v ->
  (List.length h <=? 16)%nat = true ->
  nth_error h (List.length h - 1) = Some v ->
  historyInv p.
Proof.
  intros Hh Hv Hlen Hlast.
  destruct (nth_error_last_split h v Hlast) as [front Hf].
  exists h, v, front. repeat split; try assumption.
  now apply Nat.leb_le.
Qed.

Ltac check_historyInv :=
  repeat (apply Forall_cons;
          [eapply historyInv_check; reflexivity|]);
  apply Forall_nil.

(** C3 on the demo seed: the tick and sort that follow the 240 seed draws,
    and a ward edit of [PT-1000]. *)
Lemma history_invariant_preserved_witness :
  match fst (tickAndSort Demo.localeCompare Demo.random Demo.clock
               Demo.toLocaleTimeString Demo.seed 240%nat) with
  | Some out => Forall historyInv out
  | None => False
  end /\
  Forall historyInv (updateMeta "PT-1000" (PatchWard "ICU") Demo.seed).
Proof.
  destruct (history_invariant_preserved Demo.random Demo.clock
              Demo.toLocaleTimeString Demo.localeCompare) as (_ & _ & Hsort & Hmeta).
  split.
  - generalize (Hsort Demo.seed 240%nat).
    destruct (fst (tickAndSort Demo.localeCompare Demo.random Demo.clock
                     Demo.toLocaleTimeString Demo.seed 240%nat)) as [out|] eqn:E.
    + intro H. apply H. reflexivity.
    + vm_compute in E. discriminate.
  - apply Hmeta. set (l := Demo.seed). vm_compute in l. subst l. check_historyInv.
Defined.

(** C4 on the demo seed. *)
Lemma tick_sorted_by_triage_witness :
  exists out,
    fst (tickAndSort Demo.localeCompare Demo.random Demo.clock
           Demo.toLocaleTimeString Demo.seed 240%nat) = Some out /\
    Permutation
      (fst (simulateVitalsUpdate Demo.random Demo.clock Demo.toLocaleTimeString
              Demo.seed 240%nat)) out /\
    (forall l1 a b l2, out = (l1 ++ a :: b :: l2)%list -> triageOrdered a b) /\
    (forall l1 a l2 b l3, out = (l1 ++ a :: l2 ++ b :: l3)%list ->
       id a <> id b /\
       compareTriage Demo.localeCompare a b <> Some 0%Z /\
       compareTriage Demo.localeCompare b a <> Some 0%Z).
Proof.
  apply tick_sorted_by_triage.
  - vm_compute. repeat constructor; simpl; intuition discriminate.
  - intros a b _ _. unfold collatesLikeCodeUnits, Demo.localeCompare.
    destruct (String.compare a b); lia.
Defined.

(** The case of the expected shape, on stored notes and ward for
    [PT-1001]. *)
Lemma hydrate_overrides_only_metadata_witness :
  Forall2
    (fun p o =>
       (forall k, k <> "notes"%string -> k <> "ward"%string ->
                  getProp k o = getProp k (patientObject p)) /\
       getProp "id" o = VStr (id p) /\
       (forall k, k = "notes"%string \/ k = "ward"%string ->
                  getProp k o =
                  match storedField k
                          (getProp (id p)
                             [("PT-1001",
                               VObj [("notes", VStr "check at 9");
                                     ("ward", VStr "ICU")])]%string) with
                  | Some v => v
                  | None => getProp k (patientObject p)
                  end))
    Demo.seed
    (hydrate MiniJson.parse (Demo.storageWith Demo.metadataText) Demo.seed).
Proof.
  apply hydrate_overrides_only_metadata.
  - vm_compute. reflexivity.
  - eexists. split; [reflexivity|].
    constructor; [|constructor]. simpl.
    eexists. split; [reflexivity|]. split.
    + repeat constructor; simpl; intuition discriminate.
    + simpl. intuition.
Defined.

(** C7, the fall-back, on a store that holds nothing. *)
Lemma hydrate_falls_back_to_seed_witness :
  hydrate MiniJson.parse Demo.emptyStorage Demo.seed = map patientObject Demo.seed.
Proof.
  apply hydrate_falls_back_to_seed.
  - vm_compute. reflexivity.
  - left. reflexivity.
Defined.

(** C7 as stated fails: the stored text parses, is not of the expected
    shape, and is merged all the same; the first patient comes back with
    the identifier [X]. *)
Lemma hydrate_misshaped_counterexample :
  MiniJson.parse (storedText (Demo.storageWith Demo.misshapedText)) =
    Some (VObj [("PT-1000", VObj [("id", VStr "X")])]%string) /\
  ~ expectedShape (VObj [("PT-1000", VObj [("id", VStr "X")])]%string) /\
  option_map (getProp "id")
    (nth_error (hydrate MiniJson.parse (Demo.storageWith Demo.misshapedText) Demo.seed) 0)
  = Some (VStr "X") /\
  hydrate MiniJson.parse (Demo.storageWith Demo.misshapedText) Demo.seed
  <> map patientObject Demo.seed.
Proof.
  split; [vm_compute; reflexivity|]. split; [|split].
  - intros (entries & E & HF). injection E as <-.
    inversion HF as [|? ? (props & E2 & _ & Hkeys) _]; subst.
    simpl in E2. injection E2 as <-.
    destruct (Hkeys "id"%string (or_introl eq_refl)); discriminate.
  - vm_compute. reflexivity.
  - intro H.
    apply (f_equal (fun l => option_map (getProp "id") (nth_error l 0))) in H.
    vm_compute in H. discriminate.
Qed.

(** C8 with the demo seed, the reader and writer of [MiniJson], and an
    edit of [PT-1003]. *)
Lemma metadata_roundtrip_witness :
  Forall2
    (fun p o =>
       id p = "PT-1003"%string ->
       getProp "id" o = VStr "PT-1003" /\
       getProp "notes" o = VStr "on oxygen" /\ getProp "ward" o = VStr "ICU")
    Demo.seed
    (hydrate MiniJson.parse
       (persistMeta MiniJson.stringify
          (updateMeta "PT-1003" (PatchWard "ICU")
             (updateMeta "PT-1003" (PatchNotes "on oxygen") Demo.ticked))
          Demo.emptyStorage)
       Demo.seed).
Proof.
  apply (metadata_roundtrip MiniJson.parse MiniJson.stringify Demo.ticked Demo.seed).
  - vm_compute. tauto.
  - vm_compute. reflexivity.
  - vm_compute. reflexivity.
Defined.

(** C9 as stated fails: the current reading of the first demo seed patient
    is 95.5, and after one tick it is 92.5. *)
Lemma spo2_not_integer_counterexample :
  (exists p v,
      nth_error Demo.seed 0 = Some p /\ vitals p = Some v /\
      spo2 v == 95.5 /\ ~ JsMath.is_integer (spo2 v)) /\
  (exists p v,
      nth_error Demo.ticked 0 = Some p /\ vitals p = Some v /\
      spo2 v == 92.5 /\ ~ JsMath.is_integer (spo2 v)).
Proof.
  split; eexists; eexists.
  - split; [vm_compute; reflexivity|]. split; [reflexivity|].
    split; [vm_compute; reflexivity|].
    unfold JsMath.is_integer. vm_compute. discriminate.
  - split; [vm_compute; reflexivity|]. split; [reflexivity|].
    split; [vm_compute; reflexivity|].
    unfold JsMath.is_integer. vm_compute. discriminate.
Qed.

(** C9, the integer case: a patient ticked from the default 97. *)
Lemma spo2_range_and_integrality_witness :
  JsMath.is_integer
    (spo2 (tickReading Demo.random Demo.clock Demo.toLocaleTimeString Demo.blank 0%nat)).
Proof.
  destruct (spo2_range_and_integrality Demo.random Demo.clock Demo.toLocaleTimeString)
    as [_ H].
  apply (H Demo.blank 0%nat). vm_compute. reflexivity.
Defined.

(** C10 on the demo patient that has neither reading nor history. *)
Lemma tick_defaults_witness :
  spo2 (tickReading Demo.random Demo.clock Demo.toLocaleTimeString Demo.blank 0%nat) =
    JsMath.max 60 (JsMath.min 100 (97 + inject_Z (delta (Demo.random 0%nat)))) /\
  history (fst (tickPatient Demo.random Demo.clock Demo.toLocaleTimeString Demo.blank 0%nat)) =
    Some [tickReading Demo.random Demo.clock Demo.toLocaleTimeString Demo.blank 0%nat].
Proof.
  destruct (tick_defaults Demo.random Demo.clock Demo.toLocaleTimeString
              Demo.blank 0%nat)
    as (Hv & Hh & _).
  split.
  - apply Hv. reflexivity.
  - apply Hh. reflexivity.
Defined.


(** * Further properties of the code *)

(** ** The seed *)

Lemma Forall2_map_eq {A B C : Type} (f : A -> C) (g : B -> C) (l : list A) (l' : list B) :
  Forall2 (fun a b => g b = f a) l l' -> map g l' = map f l.
Proof. induction 1; simpl; congruence. Qed.

Lemma seed_Forall2 (random : nat -> Q) (clock : nat -> Z)
    (toLocaleTimeString : bool -> Z -> string) (n : nat) :
  Forall2 (fun i p => exists m, p = fst (seedPatient random clock toLocaleTimeString i m))
          (seq 0 10) (fst (makeInitialPatients random clock toLocaleTimeString n)).
Proof. apply mapSim_Forall2. Qed.

(** The seed is the same roster for every random source and clock: ten
    patients, [PT-1000] to [PT-1009] in this order, named [Patient 1] to
    [Patient 10], all in ward General with empty notes, an age from 28 to 52
    and a history of eight readings. *)
Theorem seed_roster (random : nat -> Q) (clock : nat -> Z)
    (toLocaleTimeString : bool -> Z -> string) (n : nat) :
  let seed := fst (makeInitialPatients random clock toLocaleTimeString n) in
  map id seed = seedIds /\ map name seed = seedNames /\
  Forall (fun p => ward p = "General"%string /\ notes p = EmptyString /\
                   (28 <= age p <= 52)%Z /\ In (avatarColor p) palette /\
                   List.length (historyOf p) = 8%nat) seed.
Proof.
  intro seed. pose proof (seed_Forall2 random clock toLocaleTimeString n) as H.
  fold seed in H. split; [|split].
  - change seedIds with (map (fun i => ("PT-" ++ decimal (1000 + i))%string) (seq 0 10)).
    apply Forall2_map_eq. eapply Forall2_impl; [|exact H].
    intros i p [m ->].
    destruct (seedPatient_fst random clock toLocaleTimeString i m) as (h & _ & ->).
    reflexivity.
  - change seedNames with (map (fun i => ("Patient " ++ decimal (i + 1))%string) (seq 0 10)).
    apply Forall2_map_eq. eapply Forall2_impl; [|exact H].
    intros i p [m ->].
    destruct (seedPatient_fst random clock toLocaleTimeString i m) as (h & _ & ->).
    reflexivity.
  - apply mapSim_Forall. intros i m.
    destruct (seedPatient_fst random clock toLocaleTimeString i m) as (h & Hh & ->).
    unfold historyOf. cbn [ward notes age avatarColor history].
    split; [reflexivity|]. split; [reflexivity|]. split; [|split].
    + pose proof (Z.mod_pos_bound (Z.of_nat i * 7) 25 ltac:(lia)). lia.
    + assert (Hlt : (i mod 4 < 4)%nat) by (apply Nat.mod_upper_bound; lia).
      destruct (i mod 4)%nat as [|[|[|[|k]]]]; simpl; try tauto. lia.
    + rewrite Hh, mapSim_length. reflexivity.
Qed.

Ltac qbool :=
  repeat match goal with
    | H : Qle_bool _ _ = true |- _ => apply Qle_bool_iff in H
    | H : Qle_bool ?a ?b = false |- _ =>
        let Hc := fresh "Hc" in
        assert (b < a)
          by (apply Qnot_le_lt; intro Hc; apply Qle_bool_iff in Hc; congruence);
        clear H
    end.

Lemma round_between (x : Q) (lo hi : Z) :
  inject_Z lo <= x + (1 # 2) -> x + (1 # 2) < inject_Z hi + 1 ->
  inject_Z lo <= inject_Z (JsMath.round x) <= inject_Z hi.
Proof.
  intros Hlo Hhi. unfold JsMath.round. split.
  - rewrite <- Zle_Qle. now apply Qfloor_ge_iff.
  - rewrite <- Zle_Qle.
    assert (H : (Qfloor (x + (1 # 2)) < hi + 1)%Z).
    { apply Qfloor_lt_iff. rewrite inject_Z_plus. exact Hhi. }
    lia.
Qed.

Lemma seedReading_seedLike (random : nat -> Q) (toLocaleTimeString : bool -> Z -> string)
    (base : Q) (now : Z) (idx m : nat) :
  (forall k, 0 <= random k /\ random k < 1) ->
  92 <= base -> base <= 95 ->
  let r := fst (seedReading random toLocaleTimeString base now idx m) in
  seedLike r /\ base - 2 <= spo2 r /\ spo2 r <= base + 2.
Proof.
  intros Hr Hlo Hhi r.
  destruct (Hr m) as [H1a H1b]. destruct (Hr (S m)) as [H2a H2b].
  destruct (Hr (S (S m))) as [H3a H3b].
  assert (Hs : spo2 r = base + (random m * 4 - 2)).
  { unfold r, seedReading, bind, Math_random, ret; simpl.
    unfold JsMath.max, JsMath.min.
    destruct (Qle_bool 100 _) eqn:E1; qbool; [lra|].
    destruct (Qle_bool 80 _) eqn:E2; qbool; [reflexivity | lra]. }
  assert (Hh : hr r = inject_Z (JsMath.round (65 + random (S m) * 20))) by reflexivity.
  assert (Hb : bp r = 110 + inject_Z (JsMath.round (random (S (S m)) * 30))) by reflexivity.
  pose proof (round_between (65 + random (S m) * 20) 65 85) as B2.
  pose proof (round_between (random (S (S m)) * 30) 0 30) as B3.
  change (inject_Z 65) with 65 in B2. change (inject_Z 85) with 85 in B2.
  change (inject_Z 0) with 0 in B3. change (inject_Z 30) with 30 in B3.
  assert (B2' := B2 ltac:(lra) ltac:(lra)).
  assert (B3' := B3 ltac:(lra) ltac:(lra)).
  assert (H90 : 90 <= spo2 r) by (rewrite Hs; lra).
  unfold seedLike. rewrite Hh, Hb. repeat split; try (rewrite Hs; lra); try lra.
  - apply is_integer_inject.
  - apply (is_integer_plus 110). unfold JsMath.is_integer. reflexivity.
  - destruct (severityScore_cases (spo2 r)) as [[_ E]|[[_ E]|[[[_ Hc] _]|[Hc _]]]];
      try (rewrite E; lia); lra.
Qed.

(** With draws in [0,1), every reading of the seed has an oxygen
    saturation of at least 90 and at most 97, an integer heart rate from 65
    to 85 and an integer blood pressure from 110 to 140.  No seed patient
    is serious or critical: the level of each reading, the current one
    included, is 0 or 1. *)
Theorem seed_readings_in_range (random : nat -> Q) (clock : nat -> Z)
    (toLocaleTimeString : bool -> Z -> string) (n : nat) :
  (forall k, 0 <= random k /\ random k < 1) ->
  Forall (fun p => Forall seedLike (historyOf p) /\
                   exists v, vitals p = Some v /\ seedLike v)
         (fst (makeInitialPatients random clock toLocaleTimeString n)).
Proof.
  intro Hr. apply mapSim_Forall. intros i m.
  destruct (seedPatient_fst random clock toLocaleTimeString i m) as (h & Hh & E).
  assert (Hall : Forall seedLike h).
  { rewrite Hh. apply mapSim_Forall. intros idx k.
    assert (Hlt : (i mod 4 < 4)%nat) by (apply Nat.mod_upper_bound; lia).
    apply seedReading_seedLike; try assumption.
    - destruct (i mod 4)%nat as [|[|[|[|j]]]]; try lia; unfold Qle; simpl; lia.
    - destruct (i mod 4)%nat as [|[|[|[|j]]]]; try lia; unfold Qle; simpl; lia. }
  pose proof (seedPatient_inv random clock toLocaleTimeString i m) as (h' & v & front & H1 & H2 & _ & H4).
  rewrite E in H1, H2 |- *. unfold historyOf. cbn [history vitals] in *.
  injection H1 as <-.
  split; [exact Hall|].
  exists v. split; [exact H2|].
  rewrite Forall_forall in Hall. apply Hall. rewrite H4. apply in_or_app. right. now left.
Qed.

(** ** One tick, patient by patient *)





Section TickSteps.

Variable random : nat -> Q.
Variable clock : nat -> Z.
Variable toLocaleTimeString : bool -> Z -> string.
Hypothesis random_unit : forall k, 0 <= random k /\ random k < 1.

Abbreviation reading := (tickReading random clock toLocaleTimeString).


End TickSteps.

Lemma mapSim_nth {A B : Type} (f : A -> Sim B) (c : nat) (l : list A) :
  (forall a m, snd (f a m) = (m + c)%nat) ->
  forall n i,
    nth_error (fst (mapSim f l n)) i =
      option_map (fun a => fst (f a (n + c * i)%nat)) (nth_error l i) /\
    snd (mapSim f l n) = (n + c * List.length l)%nat.
Proof.
  intro Hc. induction l as [|a l IH]; intros n i; simpl.
  - split; [now destruct i | lia].
  - unfold bind. destruct (f a n) as [b n1] eqn:Ea.
    assert (Hn1 : n1 = (n + c)%nat) by (rewrite <- (Hc a n), Ea; reflexivity).
    destruct (mapSim f l n1) as [bs n2] eqn:El. simpl.
    split.
    + destruct i as [|i]; simpl.
      * replace (n + c * 0)%nat with n by lia. now rewrite Ea.
      * destruct (IH n1 i) as [IH1 _]. rewrite El in IH1. simpl in IH1.
        rewrite IH1. subst n1.
        replace (n + c + c * i)%nat with (n + c * S i)%nat by lia. reflexivity.
    + destruct (IH n1 0%nat) as [_ IH2]. rewrite El in IH2. simpl in IH2.
      rewrite IH2. lia.
Qed.

Section TickShape.

Variable random : nat -> Q.
Variable clock : nat -> Z.
Variable toLocaleTimeString : bool -> Z -> string.
Variable localeCompare : string -> string -> Z.

Abbreviation tick := (tickPatient random clock toLocaleTimeString).
Abbreviation simulate := (simulateVitalsUpdate random clock toLocaleTimeString).
Abbreviation tickSort := (tickAndSort localeCompare random clock toLocaleTimeString).

(** A tick makes exactly three draws per patient: the patient at position
    [i] is ticked with the draws [n + 3i], [n + 3i + 1] and [n + 3i + 2],
    whatever the other patients are, and the tick of a collection uses up
    three draws for each of its patients. *)
Theorem tick_draws (prev : list Patient) (n i : nat) :
  nth_error (fst (simulate prev n)) i =
    option_map (fun p => fst (tick p (n + 3 * i)%nat)) (nth_error prev i) /\
  snd (simulate prev n) = (n + 3 * List.length prev)%nat.
Proof.
  unfold simulateVitalsUpdate. apply mapSim_nth.
  intros p m. unfold tickPatient, bind, Math_random, Date_now, ret; simpl. lia.
Qed.

Lemma simulate_sameProfile (prev : list Patient) (n : nat) :
  Forall2 sameProfile prev (fst (simulate prev n)).
Proof.
  eapply Forall2_impl; [|apply mapSim_Forall2].
  intros p p' [m ->]. repeat split.
Qed.

(** The sort that follows a tick always returns, with the ticked patients
    in some order. *)
Lemma tickAndSort_some (prev : list Patient) (n : nat) :
  exists out,
    fst (tickSort prev n) = Some out /\
    Permutation (fst (simulate prev n)) out.
Proof.
  rewrite tickAndSort_fst.
  destruct (sortBy_sorted (compareTriage localeCompare) hasReading
              (fun _ _ => True)) with (l := fst (simulate prev n))
    as (out & Hout & _); auto.
  - intros a b Ha Hb. unfold compareTriage, hasReading in *.
    destruct (vitals b); [|congruence]. destruct (vitals a); [|congruence].
    eexists; reflexivity.
  - apply simulateVitalsUpdate_vitals.
  - exists out. split; [exact Hout|]. exact (sortBy_perm _ _ _ Hout).
Qed.

Lemma tickAndSort_snd (prev : list Patient) (n : nat) :
  snd (tickSort prev n) = snd (simulate prev n).
Proof.
  unfold tickAndSort, bind.
  destruct (simulate prev n) as [updated n']. reflexivity.
Qed.

(** A tick and its sort touch nothing but the readings: the result is a
    rearrangement of the previous patients, each with the identifier,
    name, age, ward, notes and palette class it had, and with a current
    reading. *)
Theorem tick_keeps_profiles (prev : list Patient) (n : nat) :
  exists updated out,
    fst (tickSort prev n) = Some out /\
    Forall2 sameProfile prev updated /\ Permutation updated out /\
    Forall hasReading out /\ List.length out = List.length prev.
Proof.
  destruct (tickAndSort_some prev n) as (out & Hout & Hperm).
  exists (fst (simulate prev n)), out.
  split; [exact Hout|]. split; [apply simulate_sameProfile|].
  split; [exact Hperm|]. split.
  - eapply Permutation_Forall; [exact Hperm|]. apply simulateVitalsUpdate_vitals.
  - rewrite <- (Permutation_length Hperm). apply mapSim_length.
Qed.

End TickShape.

(** ** Sessions: any sequence of ticks and edits *)

Lemma Forall2_compose {A B C : Type} (R1 : A -> B -> Prop) (R2 : B -> C -> Prop)
    (R3 : A -> C -> Prop) (la : list A) (lb : list B) (lc : list C) :
  (forall x y z, R1 x y -> R2 y z -> R3 x z) ->
  Forall2 R1 la lb -> Forall2 R2 lb lc -> Forall2 R3 la lc.
Proof.
  intros Hc H1. revert lc. induction H1; intros lc H2; inversion H2; subst;
    constructor; eauto.
Qed.

Lemma Forall2_same {A : Type} (R : A -> A -> Prop) (l : list A) :
  Forall (fun a => R a a) l -> Forall2 R l l.
Proof. induction 1; constructor; auto. Qed.

Lemma updateMeta_Forall2 (pid : string) (patch : MetaPatch) (prev : list Patient) :
  Forall2 (fun p q => q = if (id p =? pid)%string then applyPatch p patch else p)
          prev (updateMeta pid patch prev).
Proof. unfold updateMeta. induction prev; simpl; constructor; auto. Qed.

Lemma mapSim_Forall_pres {A B : Type} (f : A -> Sim B)
    (P : A -> Prop) (Q : B -> Prop) :
  (forall a m, P a -> Q (fst (f a m))) ->
  forall l n, Forall P l -> Forall Q (fst (mapSim f l n)).
Proof.
  intros HPQ l n Hl. pose proof (mapSim_Forall2 f l n) as H2.
  induction H2 as [|a b la lb [m ->] _ IH]; constructor.
  - apply HPQ. now inversion Hl.
  - apply IH. now inversion Hl.
Qed.

Section SessionProperties.

Variable localeCompare : string -> string -> Z.
Variable random : nat -> Q.
Variable clock : nat -> Z.
Variable toLocaleTimeString : bool -> Z -> string.

Abbreviation tick := (tickPatient random clock toLocaleTimeString).
Abbreviation simulate := (simulateVitalsUpdate random clock toLocaleTimeString).
Abbreviation tickSort := (tickAndSort localeCompare random clock toLocaleTimeString).
Abbreviation session := (run localeCompare random clock toLocaleTimeString).

Lemma run_tick (rest : list Event) (st out : list Patient) (n : nat) :
  fst (tickSort st n) = Some out ->
  fst (session (Tick :: rest) st n) = fst (session rest out (snd (tickSort st n))).
Proof.
  intro H. simpl. unfold bind.
  destruct (tickSort st n) as [r n1]. simpl in H. subst r. reflexivity.
Qed.

Lemma run_preserves (P : Patient -> Prop) :
  (forall p m, P p -> P (fst (tick p m))) ->
  (forall p patch, P p -> P (applyPatch p patch)) ->
  forall events st n,
    Forall P st ->
    exists out, fst (session events st n) = Some out /\ Forall P out /\
                Permutation (map id out) (map id st).
Proof.
  intros Htick Hedit events.
  induction events as [|[|pid patch] rest IH]; intros st n Hst.
  - exists st. repeat split; auto.
  - destruct (tickAndSort_some random clock toLocaleTimeString localeCompare st n)
      as (out1 & Hout1 & Hperm).
    assert (Hupd : Forall P (fst (simulate st n))).
    { apply (mapSim_Forall_pres tick P P); assumption. }
    destruct (IH out1 (snd (tickSort st n))) as (out & Hout & HP & Hids).
    { eapply Permutation_Forall; eassumption. }
    exists out. rewrite (run_tick rest st out1 n Hout1).
    split; [exact Hout|]. split; [exact HP|].
    eapply perm_trans; [exact Hids|].
    rewrite <- (simulateVitalsUpdate_ids random clock toLocaleTimeString st n).
    apply Permutation_map. now apply Permutation_sym.
  - destruct (IH (updateMeta pid patch st) n) as (out & Hout & HP & Hids).
    { unfold updateMeta. rewrite Forall_forall in *. intros q Hq.
      apply in_map_iff in Hq. destruct Hq as (p & <- & Hp).
      destruct (id p =? pid)%string; auto. }
    exists out. simpl. split; [exact Hout|]. split; [exact HP|].
    now rewrite updateMeta_ids in Hids.
Qed.

(** A session never throws and never loses, adds or renames a patient:
    from any collection, any sequence of ticks and edits ends in a
    collection with the same identifiers, rearranged.  Unique identifiers
    stay unique, the history invariant is kept, and current readings
    within the clamps stay within the clamps. *)
Theorem session_safe (events : list Event) (st : list Patient) (n : nat) :
  exists out,
    fst (session events st n) = Some out /\
    Permutation (map id out) (map id st) /\
    List.length out = List.length st /\
    (NoDup (map id st) -> NoDup (map id out)) /\
    (Forall historyInv st -> Forall historyInv out) /\
    (Forall readingInClamps st -> Forall readingInClamps out).
Proof.
  destruct (run_preserves (fun _ => True)) with (events := events) (st := st) (n := n)
    as (out & Hout & _ & Hids); auto.
  { apply Forall_forall. auto. }
  exists out. split; [exact Hout|]. split; [exact Hids|]. split; [|split; [|split]].
  - rewrite <- (length_map id out), <- (length_map id st).
    now apply Permutation_length.
  - intro Hnd. eapply Permutation_NoDup; [apply Permutation_sym; exact Hids | exact Hnd].
  - intro Hinv.
    destruct (run_preserves historyInv) with (events := events) (st := st) (n := n)
      as (out' & Hout' & HP & _); auto.
    + intros p m _. apply tickPatient_inv.
    + intros p patch. apply applyPatch_inv.
    + congruence.
  - intro Hcl.
    destruct (run_preserves readingInClamps) with (events := events) (st := st) (n := n)
      as (out' & Hout' & HP & _); auto.
    + intros p m _. eexists. split; [reflexivity|]. apply nextReading_withinClamps.
    + intros p [text|text] H; exact H.
    + congruence.
Qed.

End SessionProperties.

Lemma evolved_nil (p : Patient) :
  (List.length (historyOf p) <= 16)%nat -> evolved [] p p.
Proof.
  intro H. unfold evolved. cbn [lastNotes lastWard ticksIn].
  repeat split. lia.
Qed.

Lemma evolved_tick (rest : list Event) (p p1 q : Patient) :
  sameProfile p p1 ->
  List.length (historyOf p1) = Nat.min 16 (List.length (historyOf p) + 1) ->
  evolved rest p1 q -> evolved (Tick :: rest) p q.
Proof.
  intros (Hid & Hname & Hage & Hward & Hnotes & Hcol) Hlen
         (E1 & E2 & E3 & E4 & E5 & E6 & E7).
  unfold evolved. cbn [lastNotes lastWard ticksIn].
  rewrite Hid, Hnotes, Hward in *.
  repeat split; try congruence. rewrite E7, Hlen. lia.
Qed.

Lemma evolved_edit (rest : list Event) (pid : string) (patch : MetaPatch)
    (p q : Patient) :
  evolved rest (if (id p =? pid)%string then applyPatch p patch else p) q ->
  evolved (Edit pid patch :: rest) p q.
Proof.
  unfold evolved.
  destruct (id p =? pid)%string eqn:E; destruct patch;
    cbn [lastNotes lastWard ticksIn applyPatch id name age avatarColor notes ward
         historyOf history];
    rewrite ?E; intros (E1 & E2 & E3 & E4 & E5 & E6 & E7); repeat split; assumption.
Qed.

Section SessionEvolution.

Variable localeCompare : string -> string -> Z.
Variable random : nat -> Q.
Variable clock : nat -> Z.
Variable toLocaleTimeString : bool -> Z -> string.

Abbreviation tick := (tickPatient random clock toLocaleTimeString).
Abbreviation simulate := (simulateVitalsUpdate random clock toLocaleTimeString).
Abbreviation tickSort := (tickAndSort localeCompare random clock toLocaleTimeString).
Abbreviation session := (run localeCompare random clock toLocaleTimeString).

Lemma simulate_growth (st : list Patient) (n : nat) :
  Forall2 (fun p p1 =>
             sameProfile p p1 /\
             List.length (historyOf p1) = Nat.min 16 (List.length (historyOf p) + 1))
          st (fst (simulate st n)).
Proof.
  eapply Forall2_impl; [|apply mapSim_Forall2].
  intros p p1 [m ->]. split; [repeat split|].
  destruct (tickPatient_tickedFrom random clock toLocaleTimeString p m)
    as (v & d & h' & _ & Hh & _ & Hlen).
  unfold historyOf at 1. now rewrite Hh.
Qed.

(** What a session does to each patient, whatever the draws: the result is
    a rearrangement of the starting patients, each with its identifier,
    name, age and palette class, with the notes and the ward of the last
    edit addressed to its identifier (its own when there was none), and
    with a history of [min 16 (length + ticks)] readings. *)
Theorem session_evolution (events : list Event) (st : list Patient) (n : nat) :
  Forall (fun p => (List.length (historyOf p) <= 16)%nat) st ->
  exists l out,
    fst (session events st n) = Some out /\
    Forall2 (evolved events) st l /\ Permutation l out.
Proof.
  revert st n. induction events as [|[|pid patch] rest IH]; intros st n Hst.
  - exists st, st. split; [reflexivity|]. split; [|apply Permutation_refl].
    apply Forall2_same. eapply Forall_impl; [|exact Hst].
    intros p Hp. now apply evolved_nil.
  - destruct (tickAndSort_some random clock toLocaleTimeString localeCompare st n)
      as (out1 & Hout1 & Hperm).
    pose proof (simulate_growth st n) as Hgrow.
    destruct (IH out1 (snd (tickSort st n))) as (l2 & out & Hout & Hev & Hp2).
    { eapply Permutation_Forall; [exact Hperm|].
      apply (mapSim_Forall tick). intros p m.
      destruct (tickPatient_tickedFrom random clock toLocaleTimeString p m)
        as (v & d & h' & _ & Hh & _ & Hlen).
      unfold historyOf at 1. rewrite Hh, Hlen. lia. }
    destruct (Permutation_Forall2 (Permutation_sym Hperm) Hev) as (l2' & Hp3 & Hev').
    exists l2', out. rewrite (run_tick _ _ _ _ rest st out1 n Hout1).
    split; [exact Hout|]. split.
    + eapply Forall2_compose; [|exact Hgrow|exact Hev'].
      intros x y z [Hprof Hlen] Hyz. eapply evolved_tick; eassumption.
    + eapply perm_trans; [apply Permutation_sym; exact Hp3 | exact Hp2].
  - destruct (IH (updateMeta pid patch st) n) as (l2 & out & Hout & Hev & Hp2).
    { unfold updateMeta. rewrite Forall_forall in *. intros q Hq.
      apply in_map_iff in Hq. destruct Hq as (p & <- & Hp).
      destruct (id p =? pid)%string; [destruct patch|]; exact (Hst p Hp). }
    exists l2, out. split; [exact Hout|]. split; [|exact Hp2].
    eapply Forall2_compose; [|apply updateMeta_Forall2|exact Hev].
    intros x y z -> Hyz. now apply evolved_edit.
Qed.

End SessionEvolution.

(** ** Edits of the metadata *)

(** An edit addressed to an identifier that no patient has changes
    nothing. *)
Theorem updateMeta_unknown_id (pid : string) (patch : MetaPatch) (prev : list Patient) :
  ~ In pid (map id prev) -> updateMeta pid patch prev = prev.
Proof.
  unfold updateMeta. induction prev as [|p l IH]; simpl; intro H; [reflexivity|].
  rewrite IH by tauto.
  destruct (String.eqb_spec (id p) pid) as [E|_]; [tauto | reflexivity].
Qed.

Lemma updateMeta_compose (pid1 pid2 : string) (patch1 patch2 : MetaPatch)
    (prev : list Patient) :
  updateMeta pid2 patch2 (updateMeta pid1 patch1 prev) =
  map (fun p =>
         let p1 := if (id p =? pid1)%string then applyPatch p patch1 else p in
         if (id p =? pid2)%string then applyPatch p1 patch2 else p1) prev.
Proof.
  unfold updateMeta. rewrite map_map. apply map_ext. intro p.
  destruct (id p =? pid1)%string; [destruct patch1|]; reflexivity.
Qed.

(** Edits compose as writes to two independent fields: a second edit of the
    same field of the same patient replaces the first, an edit of the notes
    and an edit of the ward commute, and edits of different patients
    commute. *)
Theorem updateMeta_algebra (prev : list Patient) (pid1 pid2 a b : string)
    (patch1 patch2 : MetaPatch) :
  updateMeta pid1 (PatchNotes b) (updateMeta pid1 (PatchNotes a) prev)
    = updateMeta pid1 (PatchNotes b) prev /\
  updateMeta pid1 (PatchWard b) (updateMeta pid1 (PatchWard a) prev)
    = updateMeta pid1 (PatchWard b) prev /\
  updateMeta pid1 (PatchNotes a) (updateMeta pid2 (PatchWard b) prev)
    = updateMeta pid2 (PatchWard b) (updateMeta pid1 (PatchNotes a) prev) /\
  (pid1 <> pid2 ->
   updateMeta pid1 patch1 (updateMeta pid2 patch2 prev)
     = updateMeta pid2 patch2 (updateMeta pid1 patch1 prev)).
Proof.
  repeat split.
  - rewrite updateMeta_compose. unfold updateMeta. apply map_ext. intro p.
    now destruct (id p =? pid1)%string.
  - rewrite updateMeta_compose. unfold updateMeta. apply map_ext. intro p.
    now destruct (id p =? pid1)%string.
  - rewrite !updateMeta_compose. apply map_ext. intro p.
    destruct (id p =? pid1)%string, (id p =? pid2)%string; reflexivity.
  - intro Hne. rewrite !updateMeta_compose. apply map_ext. intro p.
    destruct (String.eqb_spec (id p) pid1) as [E1|_],
             (String.eqb_spec (id p) pid2) as [E2|_];
      try congruence; reflexivity.
Qed.

(** ** What is persisted *)

Lemma metaOf_fold_profiles (l l' : list Patient) (acc : object) :
  Forall2 sameProfile l l' ->
  fold_left
    (fun acc p =>
       setProp (id p)
         (VObj [("notes", VStr (notes p)); ("ward", VStr (ward p))]%string) acc)
    l acc =
  fold_left
    (fun acc p =>
       setProp (id p)
         (VObj [("notes", VStr (notes p)); ("ward", VStr (ward p))]%string) acc)
    l' acc.
Proof.
  intro H. revert acc.
  induction H as [|p q l l' (Hid & _ & _ & Hward & Hnotes & _) _ IH]; intro acc;
    simpl; [reflexivity|].
  rewrite Hid, Hward, Hnotes. apply IH.
Qed.

Lemma metaOf_profiles (l l' : list Patient) :
  Forall2 sameProfile l l' -> metaOf l = metaOf l'.
Proof. intro H. unfold metaOf. f_equal. now apply metaOf_fold_profiles. Qed.

Lemma metaOf_fold_lookup (pid : string) (ps : list Patient) (acc : object) :
  NoDup (map id ps) ->
  getProp pid
    (fold_left
       (fun acc p =>
          setProp (id p)
            (VObj [("notes", VStr (notes p)); ("ward", VStr (ward p))]%string) acc)
       ps acc) =
  match find (fun p => (id p =? pid)%string) ps with
  | Some p => VObj [("notes", VStr (notes p)); ("ward", VStr (ward p))]%string
  | None => getProp pid acc
  end.
Proof.
  revert acc. induction ps as [|q rest IH]; intros acc Hnd; simpl; [reflexivity|].
  inversion Hnd as [|? ? Hnotin Hnd']; subst.
  rewrite IH by assumption.
  destruct (String.eqb_spec (id q) pid) as [E|Hne].
  - destruct (find _ rest) as [p'|] eqn:Ef.
    + apply find_some in Ef. destruct Ef as [Hin Hid].
      apply String.eqb_eq in Hid. exfalso. apply Hnotin.
      rewrite E, <- Hid. now apply in_map.
    + rewrite <- E. apply getProp_setProp_eq.
  - destruct (find _ rest); [reflexivity|]. now apply getProp_setProp_ne.
Qed.

Lemma lookupId_metaOf (pid : string) (ps : list Patient) :
  NoDup (map id ps) -> lookupId (metaOf ps) pid = Some (entryFor pid ps).
Proof.
  intro Hnd. unfold metaOf, lookupId, entryFor.
  rewrite metaOf_fold_lookup by assumption.
  now destruct (find _ ps).
Qed.

Lemma entryFor_In (pid : string) (ps : list Patient) (q : Patient) :
  NoDup (map id ps) -> In q ps -> id q = pid ->
  entryFor pid ps = VObj [("notes", VStr (notes q)); ("ward", VStr (ward q))]%string.
Proof.
  intros Hnd Hin Hid. unfold entryFor.
  destruct (find _ ps) as [p|] eqn:Ef.
  - apply find_some in Ef. destruct Ef as [Hp Hpid]. apply String.eqb_eq in Hpid.
    assert (p = q) by (apply (NoDup_map_injective id ps); congruence).
    now subst.
  - apply (find_none _ _ Ef) in Hin. apply String.eqb_neq in Hin. contradiction.
Qed.

Lemma entryFor_absent (pid : string) (ps : list Patient) :
  ~ In pid (map id ps) -> entryFor pid ps = VUndefined.
Proof.
  intro H. unfold entryFor. destruct (find _ ps) as [p|] eqn:Ef; [|reflexivity].
  apply find_some in Ef. destruct Ef as [Hp Hpid]. apply String.eqb_eq in Hpid.
  exfalso. apply H. rewrite <- Hpid. now apply in_map.
Qed.

Lemma entryFor_perm (pid : string) (l l' : list Patient) :
  NoDup (map id l) -> Permutation l l' -> entryFor pid l = entryFor pid l'.
Proof.
  intros Hnd Hperm.
  assert (Hnd' : NoDup (map id l')).
  { eapply Permutation_NoDup; [apply Permutation_map; exact Hperm | exact Hnd]. }
  destruct (find (fun p => (id p =? pid)%string) l) as [q|] eqn:Ef.
  - apply find_some in Ef. destruct Ef as [Hq Hid]. apply String.eqb_eq in Hid.
    rewrite (entryFor_In pid l q), (entryFor_In pid l' q); auto.
    eapply Permutation_in; eassumption.
  - rewrite !entryFor_absent; auto.
    + intro Hin. apply in_map_iff in Hin. destruct Hin as (q & Hid & Hq).
      apply (Permutation_in _ (Permutation_sym Hperm)) in Hq.
      apply (find_none _ _ Ef) in Hq. apply String.eqb_neq in Hq. contradiction.
    + intro Hin. apply in_map_iff in Hin. destruct Hin as (q & Hid & Hq).
      apply (find_none _ _ Ef) in Hq. apply String.eqb_neq in Hq. contradiction.
Qed.

Section PersistedProperties.

Variable localeCompare : string -> string -> Z.
Variable random : nat -> Q.
Variable clock : nat -> Z.
Variable toLocaleTimeString : bool -> Z -> string.

(** Simulated vitals are never persisted: a tick leaves the metadata
    mapping as it was, and after the sort that follows, which may reorder
    its keys, every identifier still maps to the same entry. *)
Theorem tick_keeps_persisted (prev : list Patient) (n : nat) :
  metaOf (fst (simulateVitalsUpdate random clock toLocaleTimeString prev n))
    = metaOf prev /\
  (NoDup (map id prev) ->
   forall out pid,
     fst (tickAndSort localeCompare random clock toLocaleTimeString prev n) = Some out ->
     lookupId (metaOf out) pid = lookupId (metaOf prev) pid).
Proof.
  assert (Hmeta : metaOf (fst (simulateVitalsUpdate random clock toLocaleTimeString prev n))
                  = metaOf prev).
  { symmetry. apply metaOf_profiles. apply simulate_sameProfile. }
  split; [exact Hmeta|].
  intros Hnd out pid Hout.
  destruct (tickAndSort_some random clock toLocaleTimeString localeCompare prev n)
    as (out' & Hout' & Hperm).
  rewrite Hout in Hout'. injection Hout' as <-.
  assert (Hnd1 : NoDup (map id (fst (simulateVitalsUpdate random clock
                                       toLocaleTimeString prev n)))).
  { now rewrite simulateVitalsUpdate_ids. }
  rewrite <- Hmeta.
  rewrite !lookupId_metaOf; auto.
  - f_equal. symmetry. now apply entryFor_perm.
  - eapply Permutation_NoDup; [apply Permutation_map; exact Hperm | exact Hnd1].
Qed.

End PersistedProperties.

Section ReloadProperties.

Variable JSON_parse : string -> option value.
Variable JSON_stringify : value -> string.

(** Reloading after the persistence effect, for a collection with unique
    identifiers: each seed patient takes the notes and the ward of the
    patient that had its identifier, keeps every other property of the
    seed, and is left as seeded when no patient had its identifier. *)
Theorem reload_restores_metadata (patients seeded : list Patient) (st : Storage) :
  NoDup (map id patients) ->
  JSON_parse (JSON_stringify (metaOf patients)) = Some (metaOf patients) ->
  JSON_parse EmptyString = None ->
  Forall2
    (fun p o =>
       (forall k, k <> "notes"%string -> k <> "ward"%string ->
                  getProp k o = getProp k (patientObject p)) /\
       (forall q, In q patients -> id q = id p ->
                  getProp "notes" o = VStr (notes q) /\
                  getProp "ward" o = VStr (ward q)) /\
       (~ In (id p) (map id patients) -> o = patientObject p))
    seeded
    (hydrate JSON_parse (persistMeta JSON_stringify patients st) seeded).
Proof.
  intros Hnd Hround Hblank.
  assert (Hne : JSON_stringify (metaOf patients) <> EmptyString).
  { intro E. rewrite E in Hround. congruence. }
  unfold persistMeta. unfold metaOf in Hround at 2.
  erewrite hydrate_object
    by (rewrite storedText_setItem by exact Hne; exact Hround).
  apply Forall2_map_right. intros p _.
  rewrite (metaOf_fold_lookup (id p) patients [] Hnd).
  change (match find (fun p0 => (id p0 =? id p)%string) patients with
          | Some p0 => VObj [("notes", VStr (notes p0)); ("ward", VStr (ward p0))]%string
          | None => getProp (id p) []
          end) with (entryFor (id p) patients).
  split; [|split].
  - intros k Hn Hw. unfold entryFor. destruct (find _ patients) as [q|]; [|reflexivity].
    rewrite spread_getProp by (repeat constructor; simpl; intuition discriminate).
    unfold hasKey; simpl.
    destruct (String.eqb_spec k "notes") as [E|_]; [contradiction|].
    destruct (String.eqb_spec k "ward") as [E|_]; [contradiction|]. reflexivity.
  - intros q Hq Hid. rewrite (entryFor_In (id p) patients q Hnd Hq Hid).
    rewrite !spread_getProp by (repeat constructor; simpl; intuition discriminate).
    split; reflexivity.
  - intro Habs. now rewrite entryFor_absent.
Qed.

(** Hydration returns one object per seed patient, whatever is stored and
    whatever [JSON.parse] makes of it, and reads nothing but the metadata
    key of the store. *)
Theorem hydrate_shape (st st' : Storage) (seeded : list Patient) :
  List.length (hydrate JSON_parse st seeded) = List.length seeded /\
  (getItem st STORAGE_KEY = getItem st' STORAGE_KEY ->
   hydrate JSON_parse st seeded = hydrate JSON_parse st' seeded).
Proof.
  split.
  - unfold hydrate. destruct (JSON_parse (storedText st)) as [meta|];
      [|apply length_map].
    destruct (mapOpt (hydrateOne meta) seeded) as [merged|] eqn:E; [|apply length_map].
    revert merged E. induction seeded as [|p l IH]; simpl; intros merged E.
    + now injection E as <-.
    + destruct (hydrateOne meta p); [|discriminate].
      destruct (mapOpt (hydrateOne meta) l) as [r|]; [|discriminate].
      injection E as <-. simpl. f_equal. now apply IH.
  - intro H. unfold hydrate, storedText. now rewrite H.
Qed.

(** The theme preference and the metadata live under different keys:
    persisting either leaves what startup reads of the other unchanged, and
    the theme that startup reads is the one last persisted. *)
Theorem theme_and_metadata_independent
    (dark : bool) (patients seeded : list Patient) (st : Storage) :
  initialDark (persistTheme dark st) = dark /\
  initialDark (persistMeta JSON_stringify patients st) = initialDark st /\
  hydrate JSON_parse (persistTheme dark st) seeded = hydrate JSON_parse st seeded /\
  hydrate JSON_parse (persistTheme dark (persistMeta JSON_stringify patients st)) seeded
    = hydrate JSON_parse (persistMeta JSON_stringify patients st) seeded.
Proof.
  split; [|split; [|split]]; try reflexivity.
  unfold initialDark, persistTheme, getItem, setItem. rewrite String.eqb_refl.
  now destruct dark.
Qed.

(** Reset: once the store is cleared, startup yields the seed as generated
    and the light theme, whatever was stored before. *)
Theorem reset_demo (st : Storage) (seeded : list Patient) :
  JSON_parse "{}"%string = Some (VObj []) ->
  hydrate JSON_parse (clear st) seeded = map patientObject seeded /\
  initialDark (clear st) = false.
Proof.
  intro Hempty. split; [|reflexivity].
  rewrite (hydrate_object JSON_parse (clear st) seeded []) by exact Hempty.
  apply map_ext. intro p. reflexivity.
Qed.

End ReloadProperties.

(** ** Filter, search and the attention counter *)

Lemma filterOpt_filter {A : Type} (f : A -> option bool) (g : A -> bool) (l : list A) :
  (forall a, In a l -> f a = Some (g a)) -> filterOpt f l = Some (filter g l).
Proof.
  induction l as [|a l IH]; simpl; intro H; [reflexivity|].
  rewrite (H a) by now left. rewrite IH by (intros; apply H; now right).
  reflexivity.
Qed.

Lemma filterOpt_None {A : Type} (f : A -> option bool) (l : list A) :
  filterOpt f l = None <-> exists a, In a l /\ f a = None.
Proof.
  induction l as [|a l IH]; simpl.
  - split; [discriminate | intros (a & [] & _)].
  - destruct (f a) as [keep|] eqn:Ea.
    + destruct (filterOpt f l) as [kept|].
      * split; [discriminate|]. intros (b & [<-|Hb] & Hf); [congruence|].
        assert (Hn : @None (list A) = None) by reflexivity.
        destruct IH as [_ IH]. discriminate IH. now exists b.
      * split; [|reflexivity]. intros _.
        destruct IH as [IH _]. destruct (IH eq_refl) as (b & Hb & Hf).
        exists b. split; [now right | exact Hf].
    + split; [|reflexivity]. intros _. exists a. split; [now left | exact Ea].
Qed.

Lemma filterLevel_cases (filter : string) :
  (filter = "stable"%string /\ filterLevel filter = Some 0%Z) \/
  (filter = "warning"%string /\ filterLevel filter = Some 1%Z) \/
  (filter = "serious"%string /\ filterLevel filter = Some 2%Z) \/
  (filter = "critical"%string /\ filterLevel filter = Some 3%Z) \/
  (filter <> "stable"%string /\ filter <> "warning"%string /\
   filter <> "serious"%string /\ filter <> "critical"%string /\
   filterLevel filter = None).
Proof.
  unfold filterLevel.
  destruct (String.eqb_spec filter "stable"); [now left|].
  destruct (String.eqb_spec filter "warning"); [now right; left|].
  destruct (String.eqb_spec filter "serious"); [now right; right; left|].
  destruct (String.eqb_spec filter "critical"); [now right; right; right; left|].
  right; right; right; right. repeat split; assumption.
Qed.

Section ViewProperties.

Variable trim : string -> string.
Variable toLowerCase : string -> string.

Abbreviation keep := (keeps toLowerCase).
Abbreviation view := (filtered trim toLowerCase).
Abbreviation hits := (queryHits toLowerCase).

Lemma keeps_unrestricted (filter q : string) (p : Patient) :
  filterLevel filter = None -> keep filter q p = Some (hits q p).
Proof.
  intro H. destruct (filterLevel_cases filter)
    as [[_ E]|[[_ E]|[[_ E]|[[_ E]|(N0 & N1 & N2 & N3 & _)]]]]; try congruence.
  unfold keeps, levelMismatch.
  apply String.eqb_neq in N0, N1, N2, N3. rewrite N0, N1, N2, N3.
  unfold queryHits. now destruct (q =? EmptyString)%string.
Qed.

Lemma keeps_level (filter q : string) (level : Z) (p : Patient) (v : Reading) :
  filterLevel filter = Some level -> vitals p = Some v ->
  keep filter q p = Some ((severityScore (spo2 v) =? level)%Z && hits q p).
Proof.
  intros Hl Hv.
  destruct (filterLevel_cases filter)
    as [[-> E]|[[-> E]|[[-> E]|[[-> E]|(_ & _ & _ & _ & E)]]]];
    rewrite E in Hl; try discriminate; injection Hl as <-;
    unfold keeps, levelMismatch, queryHits; rewrite Hv; simpl;
    destruct (severityScore (spo2 v) =? _)%Z; simpl; try reflexivity;
    now destruct (q =? EmptyString)%string.
Qed.

Lemma keeps_throws (filter q : string) (level : Z) (p : Patient) :
  filterLevel filter = Some level -> vitals p = None -> keep filter q p = None.
Proof.
  intros Hl Hv.
  destruct (filterLevel_cases filter)
    as [[-> E]|[[-> E]|[[-> E]|[[-> E]|(_ & _ & _ & _ & E)]]]];
    rewrite E in Hl; try discriminate;
    unfold keeps, levelMismatch; rewrite Hv; reflexivity.
Qed.

Lemma keeps_refines (filter q : string) (p : Patient) :
  hasReading p -> keep filter q p = Some (levelIs filter p && hits q p).
Proof.
  unfold hasReading. intro Hp. destruct (vitals p) as [v|] eqn:Hv; [|congruence].
  unfold levelIs, severityOf. rewrite Hv. simpl.
  destruct (filterLevel filter) as [level|] eqn:E.
  - now apply keeps_level.
  - now apply keeps_unrestricted.
Qed.

(** With a filter that names no level, [all] among them, and a query that
    is blank once trimmed and lower-cased, the view is the whole
    collection in its order, even when patients have no reading. *)
Theorem filtered_unrestricted (patients : list Patient) (query filter : string) :
  filterLevel filter = None ->
  toLowerCase (trim query) = EmptyString ->
  view patients query filter = Some patients.
Proof.
  intros Hf Hq. unfold filtered. rewrite Hq.
  rewrite (filterOpt_filter _ (fun _ => true)).
  - f_equal. induction patients as [|p l IH]; simpl; congruence.
  - intros p _. now rewrite keeps_unrestricted.
Qed.

(** A filter that names a level reads the current reading of every
    patient: the view throws exactly when some patient has none. *)
Theorem filtered_throws_iff (patients : list Patient) (query filter : string) (level : Z) :
  filterLevel filter = Some level ->
  (view patients query filter = None <->
   exists p, In p patients /\ vitals p = None).
Proof.
  intro Hl. unfold filtered. rewrite filterOpt_None. split.
  - intros (p & Hin & Hk). exists p. split; [exact Hin|].
    destruct (vitals p) as [v|] eqn:Hv; [|reflexivity].
    rewrite (keeps_level filter _ level p v Hl Hv) in Hk. discriminate.
  - intros (p & Hin & Hv). exists p. split; [exact Hin|].
    now apply (keeps_throws filter _ level).
Qed.

(** When every patient has a reading, the view is the collection filtered
    by level and then by search, in its order: the two restrictions
    compose as a conjunction. *)
Theorem filtered_refines (patients : list Patient) (query filter : string) :
  Forall hasReading patients ->
  view patients query filter =
  Some (List.filter (hits (toLowerCase (trim query)))
          (List.filter (levelIs filter) patients)).
Proof.
  intro Hall. unfold filtered.
  rewrite (filterOpt_filter _
             (fun p => levelIs filter p && hits (toLowerCase (trim query)) p)).
  - f_equal. clear Hall. induction patients as [|p l IH]; simpl; [reflexivity|].
    destruct (levelIs filter p); simpl; rewrite IH; reflexivity.
  - rewrite Forall_forall in Hall. intros p Hp. now apply keeps_refines, Hall.
Qed.

End ViewProperties.

Lemma StronglySorted_filter {A : Type} (R : A -> A -> Prop) (f : A -> bool) (l : list A) :
  StronglySorted R l -> StronglySorted R (filter f l).
Proof.
  induction 1 as [|a l Hs IH Hall]; simpl; [constructor|].
  destruct (f a); [|exact IH].
  constructor; [exact IH|].
  rewrite Forall_forall in *. intros b Hb. apply filter_In in Hb. now apply Hall.
Qed.

Lemma needsAttention_reading (p : Patient) :
  hasReading p ->
  exists s, severityOf p = Some s /\ needsAttention p = Some (2 <=? s)%Z /\
            (0 <= s <= 3)%Z.
Proof.
  unfold hasReading, severityOf, needsAttention. intro H.
  destruct (vitals p) as [v|]; [|congruence]. simpl.
  eexists. split; [reflexivity|]. split; [reflexivity|].
  destruct (severityScore_cases (spo2 v)) as [[_ E]|[[_ E]|[[_ E]|[_ E]]]];
    rewrite E; lia.
Qed.

Lemma criticalCount_cons (p : Patient) (l : list Patient) (b : bool) (c : nat) :
  needsAttention p = Some b -> criticalCount l = Some c ->
  criticalCount (p :: l) = Some (if b then S c else c).
Proof.
  unfold criticalCount. simpl. intros -> H.
  destruct (filterOpt needsAttention l) as [kept|]; [|discriminate].
  simpl in H. injection H as <-. now destruct b.
Qed.

(** In a collection in triage order the patients that need attention come
    first: the counter is the length of a prefix made of them alone. *)
Lemma attention_prefix (l : list Patient) :
  StronglySorted triageOrdered l -> Forall hasReading l ->
  exists c,
    criticalCount l = Some c /\
    Forall (fun p => needsAttention p = Some true) (firstn c l) /\
    Forall (fun p => needsAttention p = Some false) (skipn c l).
Proof.
  induction 1 as [|a l Hs IH Hall]; intro Hr.
  - exists 0%nat. repeat split; constructor.
  - inversion Hr as [|? ? Ha Hl]; subst.
    destruct (IH Hl) as (c & Hc & Hfirst & Hrest).
    destruct (needsAttention_reading a Ha) as (sa & Hsa & Hna & _).
    destruct (2 <=? sa)%Z eqn:E.
    + exists (S c). rewrite (criticalCount_cons a l true c Hna Hc).
      repeat split; simpl; [constructor; assumption | assumption].
    + assert (Hnone : Forall (fun p => needsAttention p = Some false) l).
      { rewrite Forall_forall in *. intros b Hb.
        destruct (needsAttention_reading b (Hl b Hb)) as (sb & Hsb & Hnb & _).
        destruct (Hall b Hb) as (sa' & sb' & H1 & H2 & Hge & _).
        rewrite Hsa in H1. rewrite Hsb in H2.
        injection H1 as <-. injection H2 as <-.
        rewrite Hnb. f_equal. apply Z.leb_gt. apply Z.leb_gt in E. lia. }
      assert (Hc0 : c = 0%nat).
      { destruct c as [|c]; [reflexivity|]. exfalso.
        destruct l as [|b l]; [unfold criticalCount in Hc; simpl in Hc; discriminate|].
        simpl in Hfirst. inversion Hfirst as [|? ? Hb _]; subst.
        inversion Hnone as [|? ? Hb' _]; subst. congruence. }
      subst c. exists 0%nat. rewrite (criticalCount_cons a l false 0 Hna Hc).
      repeat split; simpl; constructor; assumption.
Qed.

Lemma levels_split (l : list Patient) :
  Forall hasReading l ->
  Permutation
    (filter (levelIs "critical") l ++ filter (levelIs "serious") l ++
     filter (levelIs "warning") l ++ filter (levelIs "stable") l) l /\
  criticalCount l =
    Some (List.length (filter (levelIs "serious") l) +
          List.length (filter (levelIs "critical") l))%nat.
Proof.
  induction 1 as [|p l Hp Hl [IHp IHc]].
  - split; [constructor | reflexivity].
  - destruct (needsAttention_reading p Hp) as (s & Hs & Hn & Hrange).
    assert (Hlev : forall name level,
               filterLevel name = Some level -> levelIs name p = (s =? level)%Z).
    { intros name level E. unfold levelIs. now rewrite E, Hs. }
    rewrite (criticalCount_cons p l _ _ Hn IHc).
    cbn [filter].
    rewrite (Hlev "critical"%string 3%Z eq_refl), (Hlev "serious"%string 2%Z eq_refl),
            (Hlev "warning"%string 1%Z eq_refl), (Hlev "stable"%string 0%Z eq_refl).
    assert (Hcase : s = 0%Z \/ s = 1%Z \/ s = 2%Z \/ s = 3%Z) by lia.
    destruct Hcase as [ -> | [ -> | [ -> | -> ] ] ]; cbn [Z.eqb Z.leb Z.compare Pos.eqb Pos.compare
                                              Pos.compare_cont];
      (split; [| f_equal; cbn [List.length]; lia]).
    + rewrite !app_assoc. apply Permutation_sym, Permutation_cons_app.
      rewrite <- !app_assoc. now apply Permutation_sym.
    + rewrite app_assoc. apply Permutation_sym, Permutation_cons_app.
      rewrite <- app_assoc. now apply Permutation_sym.
    + apply Permutation_sym, Permutation_cons_app. now apply Permutation_sym.
    + simpl. now apply perm_skip.
Qed.

Section ViewTheorems.

Variable trim : string -> string.
Variable toLowerCase : string -> string.
Variable localeCompare : string -> string -> Z.
Variable random : nat -> Q.
Variable clock : nat -> Z.
Variable toLocaleTimeString : bool -> Z -> string.

Abbreviation view := (filtered trim toLowerCase).
Abbreviation tickSort := (tickAndSort localeCompare random clock toLocaleTimeString).

Lemma view_blank (patients : list Patient) (query name : string) :
  Forall hasReading patients -> toLowerCase (trim query) = EmptyString ->
  view patients query name = Some (filter (levelIs name) patients).
Proof.
  intros Hall Hq. unfold filtered. rewrite Hq.
  apply filterOpt_filter. rewrite Forall_forall in Hall. intros p Hp.
  rewrite keeps_refines by now apply Hall.
  unfold queryHits. simpl. now rewrite andb_true_r.
Qed.

(** With a blank query, the four level filters split the collection: every
    patient with a reading is shown by exactly one of them, and the
    attention counter is the size of the serious and critical views
    together. *)
Theorem levels_partition (patients : list Patient) (query : string) :
  Forall hasReading patients -> toLowerCase (trim query) = EmptyString ->
  exists stable warning serious critical,
    view patients query "stable" = Some stable /\
    view patients query "warning" = Some warning /\
    view patients query "serious" = Some serious /\
    view patients query "critical" = Some critical /\
    Permutation (critical ++ serious ++ warning ++ stable) patients /\
    criticalCount patients = Some (List.length serious + List.length critical)%nat.
Proof.
  intros Hall Hq.
  exists (filter (levelIs "stable") patients), (filter (levelIs "warning") patients),
         (filter (levelIs "serious") patients), (filter (levelIs "critical") patients).
  rewrite !view_blank by assumption.
  destruct (levels_split patients Hall) as [Hperm Hcount].
  repeat split; assumption.
Qed.

Lemma tickAndSort_strongly (prev : list Patient) (n : nat) :
  (forall a b, In a (map id prev) -> In b (map id prev) ->
               collatesLikeCodeUnits localeCompare a b) ->
  exists out,
    fst (tickSort prev n) = Some out /\
    StronglySorted triageOrdered out /\ Forall hasReading out.
Proof.
  intro Hcol.
  pose proof (updated_sortable random clock toLocaleTimeString prev n) as Hok.
  destruct (sortBy_sorted (compareTriage localeCompare)
              (sortable (map id prev)) triageOrdered
              (compareTriage_defined localeCompare (map id prev))
              (compareTriage_le localeCompare (map id prev) Hcol)
              (compareTriage_gt localeCompare (map id prev) Hcol)
              _ Hok) as (out & Hout & Hs).
  exists out. rewrite tickAndSort_fst. split; [exact Hout|]. split.
  - apply Sorted_StronglySorted; [|exact Hs].
    intros x y z. apply triageOrdered_trans.
  - eapply Permutation_Forall; [exact (sortBy_perm _ _ _ Hout)|].
    apply simulateVitalsUpdate_vitals.
Qed.

(** After a tick, whatever the filter and the query, the view never throws
    and lists its patients in triage order: every earlier card is at least
    as severe as every later one, with ties in identifier order. *)
Theorem view_in_triage_order (prev : list Patient) (n : nat) (query filter : string) :
  (forall a b, In a (map id prev) -> In b (map id prev) ->
               collatesLikeCodeUnits localeCompare a b) ->
  exists out shown,
    fst (tickSort prev n) = Some out /\
    view out query filter = Some shown /\
    StronglySorted triageOrdered shown /\
    (forall p, In p shown -> In p out).
Proof.
  intro Hcol. destruct (tickAndSort_strongly prev n Hcol) as (out & Hout & Hs & Hr).
  exists out.
  exists (List.filter
            (fun p => levelIs filter p && queryHits toLowerCase (toLowerCase (trim query)) p)
            out).
  split; [exact Hout|]. split; [|split].
  - unfold filtered. apply filterOpt_filter.
    rewrite Forall_forall in Hr. intros p Hp. now apply keeps_refines, Hr.
  - now apply StronglySorted_filter.
  - intros p Hp. now apply filter_In in Hp.
Qed.

(** After a tick the patients that need attention, those at level 2 or 3,
    are the first cards: the counter [c] never throws, the first [c]
    patients need attention and no later one does. *)
Theorem attention_first (prev : list Patient) (n : nat) :
  (forall a b, In a (map id prev) -> In b (map id prev) ->
               collatesLikeCodeUnits localeCompare a b) ->
  exists out c,
    fst (tickSort prev n) = Some out /\
    criticalCount out = Some c /\
    Forall (fun p => needsAttention p = Some true) (firstn c out) /\
    Forall (fun p => needsAttention p = Some false) (skipn c out).
Proof.
  intro Hcol. destruct (tickAndSort_strongly prev n Hcol) as (out & Hout & Hs & Hr).
  destruct (attention_prefix out Hs Hr) as (c & Hc & H1 & H2).
  exists out, c. repeat split; assumption.
Qed.

End ViewTheorems.

(** ** What the cards show *)

Lemma severityScore_antitone (x y : Q) :
  x <= y -> (severityScore y <= severityScore x)%Z.
Proof.
  intro H.
  destruct (severityScore_cases x) as [[Hx Ex]|[[[Hx Hx'] Ex]|[[[Hx Hx'] Ex]|[Hx Ex]]]];
  destruct (severityScore_cases y) as [[Hy Ey]|[[[Hy Hy'] Ey]|[[[Hy Hy'] Ey]|[Hy Ey]]]];
    rewrite Ex, Ey; try lia; lra.
Qed.

Lemma round_ge (x : Q) (t : Z) : inject_Z t <= x -> inject_Z t <= inject_Z (JsMath.round x).
Proof.
  intro H. rewrite <- Zle_Qle. unfold JsMath.round. apply Qfloor_ge_iff. lra.
Qed.

(** The percentage on a card is the saturation rounded to the nearest
    integer.  It never falls in a worse band than the level the card is
    classified and coloured by (it can fall in a better one: 94.5 is shown
    as 95 on a warning card); it is the saturation itself when that is an
    integer, and it is between 60 and 100 for a reading within the
    clamps. *)
Theorem shown_percent_band (r : Reading) :
  spo2 r - (1 # 2) < inject_Z (shownPercent r) /\
  inject_Z (shownPercent r) <= spo2 r + (1 # 2) /\
  (severityScore (inject_Z (shownPercent r)) <= severityScore (spo2 r))%Z /\
  (JsMath.is_integer (spo2 r) -> inject_Z (shownPercent r) == spo2 r) /\
  (60 <= spo2 r <= 100 -> (60 <= shownPercent r <= 100)%Z).
Proof.
  unfold shownPercent.
  assert (Hlo : spo2 r - (1 # 2) < inject_Z (JsMath.round (spo2 r))).
  { unfold JsMath.round.
    pose proof (Qlt_floor (spo2 r + (1 # 2))) as H.
    rewrite inject_Z_plus in H. change (inject_Z 1) with 1 in H. lra. }
  assert (Hhi : inject_Z (JsMath.round (spo2 r)) <= spo2 r + (1 # 2)).
  { unfold JsMath.round. apply Qfloor_le. }
  split; [exact Hlo|]. split; [exact Hhi|]. split; [|split].
  - destruct (severityScore_cases (spo2 r))
      as [[Hs E]|[[[Hs _] E]|[[[Hs _] E]|[_ E]]]]; rewrite E.
    + pose proof (round_ge (spo2 r) 95 Hs) as H.
      change 0%Z with (severityScore 95). now apply severityScore_antitone.
    + pose proof (round_ge (spo2 r) 90 Hs) as H.
      change 1%Z with (severityScore 90). now apply severityScore_antitone.
    + pose proof (round_ge (spo2 r) 85 Hs) as H.
      change 2%Z with (severityScore 85). now apply severityScore_antitone.
    + destruct (severityScore_cases (inject_Z (JsMath.round (spo2 r))))
        as [[_ E']|[[_ E']|[[_ E']|[_ E']]]]; rewrite E'; lia.
  - unfold JsMath.is_integer. intro Hint.
    assert (E : JsMath.round (spo2 r) = Qfloor (spo2 r)).
    { unfold JsMath.round. apply Z.le_antisymm.
      - assert (H : (Qfloor (spo2 r + (1 # 2)) < Qfloor (spo2 r) + 1)%Z).
        { apply Qfloor_lt_iff. rewrite inject_Z_plus, Hint.
          change (inject_Z 1) with 1. lra. }
        lia.
      - apply Qfloor_resp_le. lra. }
    now rewrite E.
  - intros [H60 H100].
    destruct (round_between (spo2 r) 60 100) as [B1 B2].
    + change (inject_Z 60) with 60. lra.
    + change (inject_Z 100) with 100. lra.
    + rewrite <- Zle_Qle in B1, B2. lia.
Qed.

Lemma splitSpaces_word (w rest : string) :
  isWord w ->
  splitSpaces (w ++ String " " rest) = w :: splitSpaces rest.
Proof.
  induction w as [|c w IH]; intro Hw; simpl; [reflexivity|].
  destruct (Ascii.eqb_spec c " ") as [E|_].
  - exfalso. apply (Hw c); [now left | exact E].
  - rewrite IH; [reflexivity|]. intros d Hd. apply Hw. now right.
Qed.

Lemma splitSpaces_head (rest : string) :
  exists w ws, splitSpaces rest = w :: ws /\ firstChar w = secondInitial rest.
Proof.
  destruct rest as [|b rest]; simpl.
  - now exists EmptyString, [].
  - destruct (b =? " ")%char.
    + now exists EmptyString, (splitSpaces rest).
    + destruct (splitSpaces rest) as [|w ws]; eexists; eexists; split; reflexivity.
Qed.

(** The avatar text has at most two characters, and for a name that starts
    with a word followed by a space it is the first character of that word
    and the character after the space, unless that is a space too. *)
Theorem initials_spec (name : string) :
  (String.length (initials name) <= 2)%nat /\
  (forall a w rest,
      name = (String a w ++ String " " rest)%string -> isWord (String a w) ->
      initials name = String a (secondInitial rest)).
Proof.
  split.
  - unfold initials.
    destruct (splitSpaces name) as [|[|a w1] [|[|b w2] ws]]; simpl; lia.
  - intros a w rest -> Hw. unfold initials.
    rewrite (splitSpaces_word (String a w) rest Hw).
    destruct (splitSpaces_head rest) as (w2 & ws & E & Hf). rewrite E.
    cbn [map firstn firstChar]. rewrite Hf.
    destruct (secondInitial rest); reflexivity.
Qed.

(** ** The further properties on concrete runs *)

Lemma demo_random_unit (k : nat) : 0 <= Demo.random k /\ Demo.random k < 1.
Proof.
  unfold Demo.random, Qle, Qlt. cbn [Qnum Qden].
  pose proof (Nat.mod_upper_bound k 8 ltac:(lia)). lia.
Qed.

Lemma demo_collation (a b : string) :
  collatesLikeCodeUnits Demo.localeCompare a b.
Proof.
  unfold collatesLikeCodeUnits, Demo.localeCompare.
  destruct (String.compare a b); lia.
Qed.

Ltac compute_list l := let x := fresh "l" in set (x := l); vm_compute in x; subst x.

Ltac check_Forall tac :=
  repeat (apply Forall_cons; [tac|]); apply Forall_nil.

Lemma seed_readings_in_range_witness :
  Forall (fun p => Forall seedLike (historyOf p) /\
                   exists v, vitals p = Some v /\ seedLike v)
         Demo.seed.
Proof.
  apply (seed_readings_in_range Demo.random Demo.clock Demo.toLocaleTimeString 0%nat).
  exact demo_random_unit.
Defined.


Lemma session_safe_witness :
  exists out,
    fst (run Demo.localeCompare Demo.random Demo.clock Demo.toLocaleTimeString
           DemoView.events Demo.seed 240%nat) = Some out /\
    Permutation (map id out) seedIds /\ NoDup (map id out) /\
    Forall historyInv out.
Proof.
  destruct (session_safe Demo.localeCompare Demo.random Demo.clock
              Demo.toLocaleTimeString DemoView.events Demo.seed 240%nat)
    as (out & Hout & Hperm & _ & Hnd & Hinv & _).
  exists out. split; [exact Hout|]. split; [exact Hperm|]. split.
  - apply Hnd. vm_compute. repeat constructor; simpl; intuition discriminate.
  - apply Hinv. compute_list Demo.seed. check_historyInv.
Defined.

Lemma session_evolution_witness :
  exists l out,
    fst (run Demo.localeCompare Demo.random Demo.clock Demo.toLocaleTimeString
           DemoView.events Demo.seed 240%nat) = Some out /\
    Forall2 (evolved DemoView.events) Demo.seed l /\ Permutation l out.
Proof.
  apply session_evolution.
  compute_list Demo.seed. check_Forall ltac:(vm_compute; lia).
Defined.

Lemma updateMeta_unknown_id_witness :
  updateMeta "PT-9999" (PatchWard "ICU") Demo.seed = Demo.seed.
Proof.
  apply updateMeta_unknown_id. vm_compute. intuition discriminate.
Defined.

Lemma updateMeta_algebra_witness :
  updateMeta "PT-1001" (PatchNotes "a") (updateMeta "PT-1002" (PatchNotes "b") Demo.seed)
  = updateMeta "PT-1002" (PatchNotes "b") (updateMeta "PT-1001" (PatchNotes "a") Demo.seed).
Proof.
  apply (updateMeta_algebra Demo.seed "PT-1001" "PT-1002" "a" "b").
  discriminate.
Defined.

Lemma tick_keeps_persisted_witness :
  lookupId (metaOf DemoView.sorted) "PT-1003" = lookupId (metaOf Demo.seed) "PT-1003".
Proof.
  destruct (tick_keeps_persisted Demo.localeCompare Demo.random Demo.clock
              Demo.toLocaleTimeString Demo.seed 240%nat) as [_ H].
  apply H.
  - vm_compute. repeat constructor; simpl; intuition discriminate.
  - vm_compute. reflexivity.
Defined.

Lemma reload_restores_metadata_witness :
  Forall2
    (fun p o =>
       (forall k, k <> "notes"%string -> k <> "ward"%string ->
                  getProp k o = getProp k (patientObject p)) /\
       (forall q, In q [DemoView.resting] -> id q = id p ->
                  getProp "notes" o = VStr (notes q) /\
                  getProp "ward" o = VStr (ward q)) /\
       (~ In (id p) (map id [DemoView.resting]) -> o = patientObject p))
    (DemoView.resting :: Demo.seed)
    (hydrate MiniJson.parse
       (persistMeta MiniJson.stringify [DemoView.resting] Demo.emptyStorage)
       (DemoView.resting :: Demo.seed)).
Proof.
  apply reload_restores_metadata.
  - repeat constructor. simpl. tauto.
  - vm_compute. reflexivity.
  - vm_compute. reflexivity.
Defined.

Lemma hydrate_shape_witness :
  hydrate MiniJson.parse (persistTheme true (Demo.storageWith Demo.metadataText)) Demo.seed
  = hydrate MiniJson.parse (Demo.storageWith Demo.metadataText) Demo.seed.
Proof.
  apply (hydrate_shape MiniJson.parse). reflexivity.
Defined.

Lemma reset_demo_witness :
  hydrate MiniJson.parse (clear (Demo.storageWith Demo.misshapedText)) Demo.seed
    = map patientObject Demo.seed /\
  initialDark (clear (Demo.storageWith Demo.misshapedText)) = false.
Proof.
  apply reset_demo. vm_compute. reflexivity.
Defined.

Lemma filtered_unrestricted_witness :
  filtered DemoView.trim DemoView.toLowerCase [Demo.blank; DemoView.resting] "  " "all"
  = Some [Demo.blank; DemoView.resting].
Proof.
  apply filtered_unrestricted; vm_compute; reflexivity.
Defined.

Lemma filtered_throws_iff_witness :
  filtered DemoView.trim DemoView.toLowerCase [DemoView.resting; Demo.blank] "" "serious"
    = None <->
  exists p, In p [DemoView.resting; Demo.blank] /\ vitals p = None.
Proof.
  apply (filtered_throws_iff DemoView.trim DemoView.toLowerCase _ _ _ 2%Z).
  reflexivity.
Defined.

Lemma filtered_refines_witness :
  filtered DemoView.trim DemoView.toLowerCase DemoView.sorted " PT-1003 " "warning" =
  Some (filter (queryHits DemoView.toLowerCase
                  (DemoView.toLowerCase (DemoView.trim " PT-1003 ")))
          (filter (levelIs "warning") DemoView.sorted)).
Proof.
  apply filtered_refines.
  compute_list DemoView.sorted. check_Forall ltac:(discriminate).
Defined.

Lemma levels_partition_witness :
  exists stable warning serious critical,
    filtered DemoView.trim DemoView.toLowerCase DemoView.sorted " " "stable" = Some stable /\
    filtered DemoView.trim DemoView.toLowerCase DemoView.sorted " " "warning" = Some warning /\
    filtered DemoView.trim DemoView.toLowerCase DemoView.sorted " " "serious" = Some serious /\
    filtered DemoView.trim DemoView.toLowerCase DemoView.sorted " " "critical" = Some critical /\
    Permutation (critical ++ serious ++ warning ++ stable) DemoView.sorted /\
    criticalCount DemoView.sorted = Some (List.length serious + List.length critical)%nat.
Proof.
  apply levels_partition.
  - compute_list DemoView.sorted. check_Forall ltac:(discriminate).
  - vm_compute. reflexivity.
Defined.

Lemma view_in_triage_order_witness :
  exists out shown,
    fst (tickAndSort Demo.localeCompare Demo.random Demo.clock
           Demo.toLocaleTimeString Demo.seed 240%nat) = Some out /\
    filtered DemoView.trim DemoView.toLowerCase out "patient" "warning" = Some shown /\
    StronglySorted triageOrdered shown /\
    (forall p, In p shown -> In p out).
Proof.
  apply view_in_triage_order. intros a b _ _. apply demo_collation.
Defined.

Lemma attention_first_witness :
  exists out c,
    fst (tickAndSort Demo.localeCompare Demo.random Demo.clock
           Demo.toLocaleTimeString Demo.seed 240%nat) = Some out /\
    criticalCount out = Some c /\
    Forall (fun p => needsAttention p = Some true) (firstn c out) /\
    Forall (fun p => needsAttention p = Some false) (skipn c out).
Proof.
  apply attention_first. intros a b _ _. apply demo_collation.
Defined.

Lemma shown_percent_band_witness :
  inject_Z (shownPercent DemoView.restingReading) == 96 /\
  (60 <= shownPercent DemoView.restingReading <= 100)%Z.
Proof.
  destruct (shown_percent_band DemoView.restingReading) as (_ & _ & _ & Hint & Hcl).
  split.
  - apply Hint. reflexivity.
  - apply Hcl. unfold Qle; simpl. lia.
Defined.

Lemma initials_spec_witness : initials "Patient 10" = "P1"%string.
Proof.
  destruct (initials_spec "Patient 10") as [_ H].
  apply (H "P"%char "atient"%string "10"%string); [reflexivity|].
  intros c Hc. simpl in Hc. intuition (subst; discriminate).
Defined.


(** C6 on stored notes and ward for [PT-1001]: the merge, and the
    identifier kept because the entry holds nothing else. *)
Lemma hydrate_merges_stored_properties_witness :
  Forall2
    (fun p o =>
       let stored :=
         ownEntries
           (getProp (id p)
              [("PT-1001",
                VObj [("notes", VStr "check at 9"); ("ward", VStr "ICU")])]%string) in
       (forall k, getProp k o =
                  if hasKey k stored then getProp k stored
                  else getProp k (patientObject p)) /\
       ((forall k, hasKey k stored = true -> k = "notes"%string \/ k = "ward"%string) ->
        getProp "id" o = VStr (id p) /\
        forall k, k <> "notes"%string -> k <> "ward"%string ->
                  getProp k o = getProp k (patientObject p)))
    Demo.seed
    (hydrate MiniJson.parse (Demo.storageWith Demo.metadataText) Demo.seed).
Proof.
  apply hydrate_merges_stored_properties.
  - vm_compute. reflexivity.
  - constructor; [|constructor]. simpl.
    repeat constructor; simpl; intuition discriminate.
Defined.

(** C6 as stated fails: the stored entry of [PT-1002] holds an [id] and a
    [name] beside the notes, and hydration takes all three.  The third
    patient, seeded as [PT-1002], [Patient 3], comes back as [PT-1000],
    [Z], so that two patients carry the identifier [PT-1000]. *)
Lemma hydrate_changes_identifier_counterexample :
  let seeded := map patientObject Demo.seed in
  let hydrated :=
    hydrate MiniJson.parse (Demo.storageWith DemoView.intrudingText) Demo.seed in
  option_map (getProp "id") (nth_error seeded 2) = Some (VStr "PT-1002") /\
  option_map (getProp "name") (nth_error seeded 2) = Some (VStr "Patient 3") /\
  option_map (getProp "id") (nth_error hydrated 2) = Some (VStr "PT-1000") /\
  option_map (getProp "name") (nth_error hydrated 2) = Some (VStr "Z") /\
  option_map (getProp "notes") (nth_error hydrated 2) = Some (VStr "n") /\
  option_map (getProp "id") (nth_error hydrated 0) = Some (VStr "PT-1000").
Proof. repeat split; vm_compute; reflexivity. Qed.
